(** * MCP security proxy: request dispatch, security gate, envelope codec

    A shallow embedding of [mcp_security_proxy/intermediate.py]: the policy
    store ([SecurityConfig]), the security gate ([is_tool_allowed],
    [check_rate_limit], [sanitize_input]), the three request handlers and the
    dispatcher, together with the pieces of the Python runtime they rest on
    ([str] methods, [json.loads] / [json.dumps], [re.sub]); the status
    endpoints of the dashboard; and the injection detector of
    [mcp_security_proxy/sanitizer.py].

    Conventions of the embedding.
    - Text is a [string] whose characters are code points 0..255.
    - JSON numbers are integers; a literal with a fraction or an exponent is
      outside the modelled fragment and [json_loads] answers [None] on it.
    - [time.time()] readings are rationals, compared exactly.
    - A raised exception is an [option] / an explicit [Outcome]; the upstream
      server and the injection detector are functions handed to the handlers. *)

From Stdlib Require Import ZArith QArith Lia Lqa Ascii String List.
From Stdlib Require Import Decimal DecimalFacts DecimalPos DecimalZ DecimalString.
From stdpp Require Import base option countable gmap strings list.

Local Open Scope string_scope.
Local Open Scope Z_scope.

(** ** Python [str] primitives *)

Module Py.

(** [str.isspace] on one character; also what [\s] matches in a [str]
    pattern.  Below 256 these are TAB..CR, FS..US, SPACE, NEL and NBSP. *)
Definition isspace (c : ascii) : bool :=
  let n := N_of_ascii c in
  ((9 <=? n) && (n <=? 13) || (28 <=? n) && (n <=? 32)
   || (n =? 133) || (n =? 160))%N.

Fixpoint lstrip (s : string) : string :=
  match s with
  | String c r => if isspace c then lstrip r else s
  | EmptyString => EmptyString
  end.

Fixpoint rstrip (s : string) : string :=
  match s with
  | String c r =>
      match rstrip r with
      | EmptyString => if isspace c then EmptyString else String c EmptyString
      | r' => String c r'
      end
  | EmptyString => EmptyString
  end.

(** [s.strip()] *)
Definition strip (s : string) : string := rstrip (lstrip s).

(** [s.lstrip(ch)] and [s.rstrip(ch)] for a one-character argument. *)
Fixpoint lstrip_char (ch : ascii) (s : string) : string :=
  match s with
  | String c r => if Ascii.eqb c ch then lstrip_char ch r else s
  | EmptyString => EmptyString
  end.

Fixpoint rstrip_char (ch : ascii) (s : string) : string :=
  match s with
  | String c r =>
      match rstrip_char ch r with
      | EmptyString => if Ascii.eqb c ch then EmptyString else String c EmptyString
      | r' => String c r'
      end
  | EmptyString => EmptyString
  end.

(** [s.split(sep)] for a one-character separator: never an empty list. *)
Fixpoint split (sep : ascii) (s : string) : list string :=
  match s with
  | EmptyString => [EmptyString]
  | String c r =>
      if Ascii.eqb c sep then EmptyString :: split sep r
      else match split sep r with
           | h :: t => String c h :: t
           | [] => [String c EmptyString]
           end
  end.

(** [s.startswith(p)] *)
Fixpoint startswith (p s : string) : bool :=
  match p, s with
  | EmptyString, _ => true
  | String a p', String b s' => Ascii.eqb a b && startswith p' s'
  | String _ _, EmptyString => false
  end.

(** [s[n:]] *)
Fixpoint slice_from (n : nat) (s : string) : string :=
  match n, s with
  | O, _ => s
  | S n', String _ r => slice_from n' r
  | S _, EmptyString => EmptyString
  end.

(** [next(x for x in l if p(x))]: [None] stands for [StopIteration]. *)
Fixpoint next_matching {A} (p : A -> bool) (l : list A) : option A :=
  match l with
  | [] => None
  | x :: t => if p x then Some x else next_matching p t
  end.

End Py.

(** ** JSON values ([json.loads] results) *)

Unset Elimination Schemes.
Inductive json : Type :=
| JNull
| JBool (b : bool)
| JInt (z : Z)
| JStr (s : string)
| JArr (l : list json)
| JObj (m : list (string * json)).
Set Elimination Schemes.

(** Induction over JSON values, with the hypothesis for every element of an
    array and every value of an object. *)
Fixpoint json_induction (P : json -> Prop)
    (Hnull : P JNull)
    (Hbool : forall b, P (JBool b))
    (Hint : forall z, P (JInt z))
    (Hstr : forall s, P (JStr s))
    (Harr : forall l, Forall P l -> P (JArr l))
    (Hobj : forall m, Forall (fun kv => P (snd kv)) m -> P (JObj m))
    (v : json) {struct v} : P v :=
  match v with
  | JNull => Hnull
  | JBool b => Hbool b
  | JInt z => Hint z
  | JStr s => Hstr s
  | JArr l =>
      Harr l ((fix go (l : list json) : Forall P l :=
                 match l with
                 | [] => @List.Forall_nil json P
                 | x :: t =>
                     @List.Forall_cons json P x t
                       (json_induction P Hnull Hbool Hint Hstr Harr Hobj x) (go t)
                 end) l)
  | JObj m =>
      Hobj m ((fix go (m : list (string * json)) : Forall (fun kv => P (snd kv)) m :=
                 match m with
                 | [] => @List.Forall_nil (string * json) (fun kv => P (snd kv))
                 | kv :: t =>
                     @List.Forall_cons (string * json) (fun kv => P (snd kv)) kv t
                       (json_induction P Hnull Hbool Hint Hstr Harr Hobj (snd kv)) (go t)
                 end) m)
  end.

(** A [dict] keeps insertion order and has one entry per key. *)
Fixpoint dict_get (k : string) (m : list (string * json)) : option json :=
  match m with
  | [] => None
  | (k', v) :: t => if String.eqb k k' then Some v else dict_get k t
  end.

(** [d[k] = v]: overwrite in place, or append a new key at the end. *)
Fixpoint dict_set (k : string) (v : json) (m : list (string * json))
  : list (string * json) :=
  match m with
  | [] => [(k, v)]
  | (k', v') :: t =>
      if String.eqb k k' then (k', v) :: t else (k', v') :: dict_set k v t
  end.

(** [dict(pairs)] as the decoder's object hook builds it. *)
Definition dict_of_pairs (pairs : list (string * json)) : list (string * json) :=
  fold_left (fun d kv => dict_set (fst kv) (snd kv) d) pairs [].

(** [v[k]] for a string subscript: [KeyError] and [TypeError] are [None]. *)
Definition subscript (v : json) (k : string) : option json :=
  match v with
  | JObj m => dict_get k m
  | _ => None
  end.

(** [v.get(k)] and [v.get(k, dflt)]: only a [dict] has the method. *)
Definition get_default (v : json) (k : string) (dflt : json) : option json :=
  match v with
  | JObj m => Some (default dflt (dict_get k m))
  | _ => None
  end.

Definition get (v : json) (k : string) : option json := get_default v k JNull.



(** The double quote, code point 34. *)
Abbreviation DQUOTE := (Ascii false true false false false true false false).

(** ** [json.dumps] with the default settings

    [ensure_ascii=True], item separator [", "], key separator [": "]. *)

Definition hex_digit (n : N) : ascii :=
  ascii_of_N (if (n <? 10)%N then 48 + n else 87 + n).

(** One character of [py_encode_basestring_ascii]. *)
Definition escape_char (c : ascii) : string :=
  let n := N_of_ascii c in
  if (n =? 34)%N then String "\" (String DQUOTE EmptyString)
  else if (n =? 92)%N then "\\"
  else if (n =? 10)%N then "\n"
  else if (n =? 13)%N then "\r"
  else if (n =? 9)%N then "\t"
  else if (n =? 12)%N then "\f"
  else if (n =? 8)%N then "\b"
  else if ((32 <=? n) && (n <=? 126))%N then String c EmptyString
  else String "\" (String "u" (String "0" (String "0"
         (String (hex_digit (n / 16)) (String (hex_digit (n mod 16)) EmptyString))))).

Fixpoint escape (s : string) : string :=
  match s with
  | EmptyString => EmptyString
  | String c r => escape_char c ++ escape r
  end.

Definition dumps_str (s : string) : string :=
  String DQUOTE (escape s ++ String DQUOTE EmptyString).

Definition dumps_int (z : Z) : string := NilEmpty.string_of_int (Z.to_int z).

(** [sep.join(parts)] *)
Fixpoint join (sep : string) (parts : list string) : string :=
  match parts with
  | [] => EmptyString
  | [x] => x
  | x :: t => x ++ sep ++ join sep t
  end.

Fixpoint json_dumps (v : json) : string :=
  match v with
  | JNull => "null"
  | JBool true => "true"
  | JBool false => "false"
  | JInt z => dumps_int z
  | JStr s => dumps_str s
  | JArr l => "[" ++ join ", " (map json_dumps l) ++ "]"
  | JObj m =>
      "{" ++ join ", " (map (fun kv => dumps_str (fst kv) ++ ": " ++ json_dumps (snd kv)) m)
          ++ "}"
  end.

(** ** [json.loads] *)

(** The decoder's whitespace: space, TAB, LF, CR. *)
Definition json_ws (c : ascii) : bool :=
  let n := N_of_ascii c in ((n =? 32) || (n =? 9) || (n =? 10) || (n =? 13))%N.

Fixpoint skip_ws (s : string) : string :=
  match s with
  | String c r => if json_ws c then skip_ws r else s
  | EmptyString => EmptyString
  end.

Definition hex_value (c : ascii) : option N :=
  let n := N_of_ascii c in
  if ((48 <=? n) && (n <=? 57))%N then Some (n - 48)%N
  else if ((97 <=? n) && (n <=? 102))%N then Some (n - 87)%N
  else if ((65 <=? n) && (n <=? 70))%N then Some (n - 55)%N
  else None.

(** The four hex digits of a [\uXXXX] escape; code points above 255 are not
    representable in the model. *)
Definition hex4 (a b c d : ascii) : option ascii :=
  match hex_value a, hex_value b, hex_value c, hex_value d with
  | Some x, Some y, Some z, Some w =>
      if ((x =? 0) && (y =? 0))%N then Some (ascii_of_N (16 * z + w)) else None
  | _, _, _, _ => None
  end.

(** A one-letter escape. *)
Definition unescape (e : ascii) : option ascii :=
  let n := N_of_ascii e in
  if (n =? 34)%N then Some e
  else if (n =? 92)%N then Some e
  else if (n =? 47)%N then Some e
  else if (n =? 98)%N then Some (ascii_of_N 8)
  else if (n =? 102)%N then Some (ascii_of_N 12)
  else if (n =? 110)%N then Some (ascii_of_N 10)
  else if (n =? 114)%N then Some (ascii_of_N 13)
  else if (n =? 116)%N then Some (ascii_of_N 9)
  else None.

Definition cons_str (c : ascii) (r : option (string * string)) : option (string * string) :=
  match r with
  | Some (s, rest) => Some (String c s, rest)
  | None => None
  end.

(** [scanstring] in strict mode, entered after the opening quote: the decoded
    text and what follows the closing quote. *)
Fixpoint scanstring (s : string) : option (string * string) :=
  match s with
  | EmptyString => None
  | String c r =>
      if (N_of_ascii c =? 34)%N then Some (EmptyString, r)
      else if (N_of_ascii c =? 92)%N then
        match r with
        | EmptyString => None
        | String e r1 =>
            if (N_of_ascii e =? 117)%N then
              match r1 with
              | String h1 (String h2 (String h3 (String h4 r2))) =>
                  match hex4 h1 h2 h3 h4 with
                  | Some d => cons_str d (scanstring r2)
                  | None => None
                  end
              | _ => None
              end
            else
              match unescape e with
              | Some d => cons_str d (scanstring r1)
              | None => None
              end
        end
      else if (N_of_ascii c <? 32)%N then None
      else cons_str c (scanstring r)
  end.

(** [s] with the literal [lit] removed from its head. *)
Fixpoint strip_prefix (lit s : string) : option string :=
  match lit, s with
  | EmptyString, _ => Some s
  | String a lit', String b s' => if Ascii.eqb a b then strip_prefix lit' s' else None
  | String _ _, EmptyString => None
  end.

Definition digit (c : ascii) : option (uint -> uint) :=
  match N_of_ascii c with
  | 48%N => Some D0 | 49%N => Some D1 | 50%N => Some D2 | 51%N => Some D3
  | 52%N => Some D4 | 53%N => Some D5 | 54%N => Some D6 | 55%N => Some D7
  | 56%N => Some D8 | 57%N => Some D9
  | _ => None
  end.

(** The longest run of digits at the head of [s]. *)
Fixpoint scan_digits (s : string) : uint * string :=
  match s with
  | EmptyString => (Nil, EmptyString)
  | String c r =>
      match digit c with
      | Some D => let '(d, rest) := scan_digits r in (D d, rest)
      | None => (Nil, s)
      end
  end.

(** [0] or a run that does not begin with [0]. *)
Definition int_part_ok (d : uint) : bool :=
  match d with
  | Nil => false
  | D0 Nil => true
  | D0 _ => false
  | _ => true
  end.

(** What may not follow an integer literal: a further digit (after a leading
    zero), or the start of a fraction or exponent. *)
Definition number_continues (s : string) : bool :=
  match s with
  | String c _ =>
      let n := N_of_ascii c in ((n =? 46) || (n =? 101) || (n =? 69))%N
  | EmptyString => false
  end.

Definition scan_unsigned (s : string) : option (uint * string) :=
  let '(d, rest) := scan_digits s in
  if int_part_ok d && negb (number_continues rest) then Some (d, rest) else None.

(** NUMBER_RE restricted to integers. *)
Definition scan_number (s : string) : option (json * string) :=
  match strip_prefix "-" s with
  | Some r =>
      match scan_unsigned r with
      | Some (d, rest) => Some (JInt (Z.of_int (Neg d)), rest)
      | None => None
      end
  | None =>
      match scan_unsigned s with
      | Some (d, rest) => Some (JInt (Z.of_int (Pos d)), rest)
      | None => None
      end
  end.

(** The constants [null], [true], [false], else a number. *)
Definition scan_literal (s : string) : option (json * string) :=
  match strip_prefix "null" s with
  | Some rest => Some (JNull, rest)
  | None =>
      match strip_prefix "true" s with
      | Some rest => Some (JBool true, rest)
      | None =>
          match strip_prefix "false" s with
          | Some rest => Some (JBool false, rest)
          | None => scan_number s
          end
      end
  end.

(** [scan_once] with the array and object decoders.  Each nesting level takes
    two units of [fuel] and at least one character, so a scan started with
    more than twice the length of its input never runs out
    ([scan_fuel_irrelevant]). *)
Fixpoint scan_once (fuel : nat) (s : string) : option (json * string) :=
  match fuel with
  | O => None
  | S fuel' =>
      match s with
      | EmptyString => None
      | String c r =>
          if Ascii.eqb c DQUOTE then
            match scanstring r with
            | Some (str, rest) => Some (JStr str, rest)
            | None => None
            end
          else if Ascii.eqb c "[" then
            match strip_prefix "]" (skip_ws r) with
            | Some rest => Some (JArr [], rest)
            | None =>
                match scan_items fuel' (skip_ws r) with
                | Some (l, rest) => Some (JArr l, rest)
                | None => None
                end
            end
          else if Ascii.eqb c "{" then
            match strip_prefix "}" (skip_ws r) with
            | Some rest => Some (JObj [], rest)
            | None =>
                match scan_members fuel' (skip_ws r) with
                | Some (m, rest) => Some (JObj (dict_of_pairs m), rest)
                | None => None
                end
            end
          else scan_literal s
      end
  end
with scan_items (fuel : nat) (s : string) : option (list json * string) :=
  match fuel with
  | O => None
  | S fuel' =>
      match scan_once fuel' s with
      | None => None
      | Some (v, r) =>
          match strip_prefix "]" (skip_ws r) with
          | Some rest => Some ([v], rest)
          | None =>
              match strip_prefix "," (skip_ws r) with
              | Some r1 =>
                  match scan_items fuel' (skip_ws r1) with
                  | Some (l, rest) => Some (v :: l, rest)
                  | None => None
                  end
              | None => None
              end
          end
      end
  end
with scan_members (fuel : nat) (s : string) : option (list (string * json) * string) :=
  match fuel with
  | O => None
  | S fuel' =>
      match strip_prefix (String DQUOTE EmptyString) s with
      | None => None
      | Some r =>
          match scanstring r with
          | None => None
          | Some (k, r1) =>
              match strip_prefix ":" (skip_ws r1) with
              | None => None
              | Some r2 =>
                  match scan_once fuel' (skip_ws r2) with
                  | None => None
                  | Some (v, r3) =>
                      match strip_prefix "}" (skip_ws r3) with
                      | Some rest => Some ([(k, v)], rest)
                      | None =>
                          match strip_prefix "," (skip_ws r3) with
                          | Some r4 =>
                              match scan_members fuel' (skip_ws r4) with
                              | Some (m, rest) => Some ((k, v) :: m, rest)
                              | None => None
                              end
                          | None => None
                          end
                      end
                  end
              end
          end
      end
  end.

(** [json.loads(s)]: one value between optional whitespace, nothing after. *)
Definition json_loads (s : string) : option json :=
  match scan_once (S (2 * String.length s)) (skip_ws s) with
  | Some (v, rest) =>
      match skip_ws rest with
      | EmptyString => Some v
      | _ => None
      end
  | None => None
  end.

(** ** [re.sub] for the denylist patterns *)

(** The patterns of [SecurityConfig.dangerous_patterns] are built from
    literal characters and [\s*]. *)
Inductive atom : Type :=
| Lit (c : ascii)
| Spaces.

Definition regex : Type := list atom.

Fixpoint lits (s : string) : regex :=
  match s with
  | EmptyString => []
  | String c r => Lit c :: lits r
  end.

(** Lower-casing of a code point below 256. *)
Definition lower (c : ascii) : ascii :=
  let n := N_of_ascii c in
  if ((65 <=? n) && (n <=? 90) || (192 <=? n) && (n <=? 222) && negb (n =? 215))%N
  then ascii_of_N (n + 32) else c.

(** A literal under [re.IGNORECASE]. *)
Definition lit_matches (p c : ascii) : bool := Ascii.eqb (lower c) (lower p).

(** Match [p] at the head of [s], greedily with backtracking: the number of
    characters consumed. *)
Fixpoint match_here (p : regex) (s : string) : option nat :=
  match p with
  | [] => Some O
  | Lit c :: p' =>
      match s with
      | String d r => if lit_matches c d then option_map S (match_here p' r) else None
      | EmptyString => None
      end
  | Spaces :: p' =>
      (fix star (s : string) : option nat :=
         match s with
         | String d r =>
             if Py.isspace d then
               match star r with
               | Some n => Some (S n)
               | None => match_here p' s
               end
             else match_here p' s
         | EmptyString => match_here p' s
         end) s
  end.

(** Left-to-right scan of [re.sub]: [skip] characters of the current match
    are still to be dropped.  None of the denylist patterns matches the empty
    string, so an empty match is treated as no match. *)
Fixpoint sub_from (p : regex) (repl : string) (skip : nat) (s : string) : string :=
  match s with
  | EmptyString => EmptyString
  | String c r =>
      match skip with
      | S k => sub_from p repl k r
      | O =>
          match match_here p s with
          | Some (S k) => repl ++ sub_from p repl k r
          | _ => String c (sub_from p repl O r)
          end
      end
  end.

(** [re.sub(p, repl, s, flags=re.IGNORECASE)] *)
Definition re_sub (p : regex) (repl s : string) : string := sub_from p repl O s.

(** ** Policy store *)

(** Hashable values used as set members and dictionary keys: [None], integers
    (with [True == 1] and [False == 0]) and strings. *)
Inductive pykey : Type :=
| KNone
| KInt (z : Z)
| KStr (s : string).

#[global] Instance pykey_eq_dec : EqDecision pykey.
Proof. solve_decision. Defined.

#[global] Program Instance pykey_countable : Countable pykey :=
  inj_countable'
    (fun k => match k with
              | KNone => inl ()
              | KInt z => inr (inl z)
              | KStr s => inr (inr s)
              end)
    (fun x => match x with
              | inl _ => KNone
              | inr (inl z) => KInt z
              | inr (inr s) => KStr s
              end) _.
Next Obligation. by intros []. Qed.

(** [hash(v)]: lists and dicts are unhashable ([TypeError]). *)
Definition key_of (v : json) : option pykey :=
  match v with
  | JNull => Some KNone
  | JBool b => Some (KInt (if b then 1 else 0))
  | JInt z => Some (KInt z)
  | JStr s => Some (KStr s)
  | JArr _ | JObj _ => None
  end.

(** Truth value of a key. *)
Definition truthy (k : pykey) : bool :=
  match k with
  | KNone => false
  | KInt z => negb (z =? 0)
  | KStr s => negb (String.eqb s EmptyString)
  end.

(** One entry of [rate_limits]. *)
Record RateLimit : Type := {
  calls_per_minute : Z;
  last_reset : Q;
  call_count : Z
}.

Record SecurityConfig : Type := {
  blocked_tools : gset pykey;
  allowed_tools : gset pykey;
  rate_limits : gmap pykey RateLimit;
  input_sanitization_enabled : bool;
  dangerous_patterns : list regex
}.

(** The [defaultdict] factory of [rate_limits]; [fresh] is its clock reading. *)
Definition default_rate_limit (fresh : Q) : RateLimit :=
  {| calls_per_minute := 60; last_reset := fresh; call_count := 0 |}.

(** [SecurityConfig.__init__] *)
Definition SecurityConfig_init : SecurityConfig :=
  {| blocked_tools := ∅;
     allowed_tools := ∅;
     rate_limits := ∅;
     input_sanitization_enabled := true;
     dangerous_patterns :=
       [ app (lits "eval") [Spaces; Lit "("];
         app (lits "exec") [Spaces; Lit "("];
         lits "__import__";
         lits "subprocess";
         lits "os.system";
         lits "shell=True" ] |}.

Definition set_blocked_allowed (b a : gset pykey) (cfg : SecurityConfig) : SecurityConfig :=
  {| blocked_tools := b;
     allowed_tools := a;
     rate_limits := rate_limits cfg;
     input_sanitization_enabled := input_sanitization_enabled cfg;
     dangerous_patterns := dangerous_patterns cfg |}.

Definition set_rate_limits (m : gmap pykey RateLimit) (cfg : SecurityConfig) : SecurityConfig :=
  {| blocked_tools := blocked_tools cfg;
     allowed_tools := allowed_tools cfg;
     rate_limits := m;
     input_sanitization_enabled := input_sanitization_enabled cfg;
     dangerous_patterns := dangerous_patterns cfg |}.

(** [rate_limits[tool_name]]: the entry, created by the factory when absent. *)
Definition rate_limit_entry (fresh : Q) (tool_name : pykey) (cfg : SecurityConfig) : RateLimit :=
  default (default_rate_limit fresh) (rate_limits cfg !! tool_name).

(** The [/api/toggle-tool] endpoint. *)
Definition toggle_tool (tool_name : pykey) (enabled : bool) (cfg : SecurityConfig)
  : SecurityConfig :=
  if enabled then
    set_blocked_allowed (blocked_tools cfg ∖ {[tool_name]})
                        (allowed_tools cfg ∪ {[tool_name]}) cfg
  else
    set_blocked_allowed (blocked_tools cfg ∪ {[tool_name]})
                        (allowed_tools cfg ∖ {[tool_name]}) cfg.

(** The [/api/update-rate-limit] endpoint, for an integer [rate_limit]. *)
Definition update_rate_limit (fresh : Q) (tool_name : pykey) (rate_limit : Z)
    (cfg : SecurityConfig) : SecurityConfig :=
  let new_limit := if rate_limit =? 0 then 60 else rate_limit in
  if truthy tool_name && (0 <? new_limit) then
    let e := rate_limit_entry fresh tool_name cfg in
    set_rate_limits
      (<[tool_name := {| calls_per_minute := new_limit;
                         last_reset := last_reset e;
                         call_count := call_count e |}]> (rate_limits cfg)) cfg
  else cfg.

(** Reading [rate_limits[tool_name]], as the status endpoints and the
    dashboard do, creates the entry when it is absent. *)
Definition read_rate_limit (fresh : Q) (tool_name : pykey) (cfg : SecurityConfig)
  : SecurityConfig :=
  set_rate_limits (<[tool_name := rate_limit_entry fresh tool_name cfg]> (rate_limits cfg)) cfg.

(** The effect of [/api/test-usage] on the policy:
    [rate_limits[tool_name]['call_count'] += 1]. *)
Definition test_usage (fresh : Q) (tool_name : pykey) (cfg : SecurityConfig)
  : SecurityConfig :=
  let e := rate_limit_entry fresh tool_name cfg in
  set_rate_limits
    (<[tool_name := {| calls_per_minute := calls_per_minute e;
                       last_reset := last_reset e;
                       call_count := call_count e + 1 |}]> (rate_limits cfg)) cfg.

(** ** Security gate *)

Definition is_tool_allowed (tool_name : pykey) (cfg : SecurityConfig) : bool :=
  if bool_decide (tool_name ∈ blocked_tools cfg) then false
  else if bool_decide (allowed_tools cfg ≠ ∅)
          && bool_decide (tool_name ∉ allowed_tools cfg) then false
  else true.

(** [check_rate_limit]: [now] is [time.time()] read on entry, [fresh] the
    reading of the factory in case the tool has no entry yet. *)
Definition check_rate_limit (now fresh : Q) (tool_name : pykey) (cfg : SecurityConfig)
  : bool * SecurityConfig :=
  let tool_limit := rate_limit_entry fresh tool_name cfg in
  let tool_limit :=
    if Qle_bool 60 (now - last_reset tool_limit) then
      {| calls_per_minute := calls_per_minute tool_limit;
         last_reset := now;
         call_count := 0 |}
    else tool_limit in
  if calls_per_minute tool_limit <=? call_count tool_limit then
    (false, set_rate_limits (<[tool_name := tool_limit]> (rate_limits cfg)) cfg)
  else
    (true,
     set_rate_limits
       (<[tool_name := {| calls_per_minute := calls_per_minute tool_limit;
                          last_reset := last_reset tool_limit;
                          call_count := call_count tool_limit + 1 |}]> (rate_limits cfg))
       cfg).

(** The loop over [dangerous_patterns] applied to one string value. *)
Definition scrub (patterns : list regex) (value : string) : string :=
  fold_left (fun value pattern => re_sub pattern "[BLOCKED]" value) patterns value.

(** The body of the loop of [sanitize_input] for one value: strings are
    scrubbed, dicts are sanitized recursively, lists have their dict items
    sanitized and every other item kept. *)
Fixpoint sanitize_value (patterns : list regex) (value : json) : json :=
  match value with
  | JStr s => JStr (scrub patterns s)
  | JObj m => JObj (map (fun kv => (fst kv, sanitize_value patterns (snd kv))) m)
  | JArr l =>
      JArr (map (fun item =>
                   match item with
                   | JObj m =>
                       JObj (map (fun kv => (fst kv, sanitize_value patterns (snd kv))) m)
                   | _ => item
                   end) l)
  | _ => value
  end.

(** [sanitize_input(args)]: [args.items()] exists only on a dict. *)
Definition sanitize_input (cfg : SecurityConfig) (args : json) : option json :=
  match args with
  | JObj m =>
      Some (JObj (map (fun kv => (fst kv, sanitize_value (dangerous_patterns cfg) (snd kv))) m))
  | _ => None
  end.

(** ** HTTP surface *)

Definition Headers : Type := list (string * string).

(** The inbound [Request]. *)
Record Request : Type := {
  req_method : string;
  req_headers : Headers;
  req_body : string
}.

(** The arguments of [client.request]. *)
Record UpstreamCall : Type := {
  call_method : string;
  call_url : string;
  call_content : string;
  call_headers : Headers
}.

(** An [httpx] response, and the [Response] a handler returns. *)
Record Response : Type := {
  content : string;
  status_code : Z;
  headers : Headers
}.

(** How a handler ends: it returns a response, raises [HTTPException] with a
    status code (the detail text is not modelled), or lets another exception
    escape to the framework. *)
Inductive Outcome : Type :=
| Returned (r : Response)
| HTTPException (status : Z)
| Unhandled.

Record MCPProxyMiddleware : Type := {
  target_server_url : string;
  security_config : SecurityConfig;
  session : bool;
  tool_usage_counts : gmap pykey Z
}.

Definition set_security_config (cfg : SecurityConfig) (self : MCPProxyMiddleware)
  : MCPProxyMiddleware :=
  {| target_server_url := target_server_url self;
     security_config := cfg;
     session := session self;
     tool_usage_counts := tool_usage_counts self |}.

(** [self.tool_usage_counts[tool_name] += 1] on a [defaultdict(int)]. *)
Definition count_usage (tool_name : pykey) (self : MCPProxyMiddleware) : MCPProxyMiddleware :=
  {| target_server_url := target_server_url self;
     security_config := security_config self;
     session := session self;
     tool_usage_counts :=
       <[tool_name := default 0 (tool_usage_counts self !! tool_name) + 1]>
         (tool_usage_counts self) |}.

(** [d.pop(k, None)] *)
Definition pop (k : string) (h : Headers) : Headers :=
  List.filter (fun kv => negb (String.eqb (fst kv) k)) h.

(** The redirect headers are dropped from what goes back to the client. *)
Definition strip_location (h : Headers) : Headers := pop "Location" (pop "location" h).

(** Base URL and inbound path joined by exactly one slash. *)
Definition target_url (self : MCPProxyMiddleware) (path : option string) : string :=
  let base_url := Py.rstrip_char "/" (target_server_url self) in
  match path with
  | None | Some EmptyString => base_url
  | Some p => base_url ++ "/" ++ Py.lstrip_char "/" p
  end.

Definition forward (self : MCPProxyMiddleware) (path : option string) (request : Request)
  : UpstreamCall :=
  {| call_method := req_method request;
     call_url := target_url self path;
     call_content := req_body request;
     call_headers := req_headers request |}.

Definition LF : ascii := ascii_of_N 10.
Definition CR : ascii := ascii_of_N 13.
Definition CRLF : string := String CR (String LF EmptyString).

(** ** Envelope codec *)

(** Lines 268-274 of [updated_handle_tools_list]: the JSON-RPC object of the
    first [data: ] line of a frame. *)
Definition decode_frame (response_string : string) : option json :=
  let lines := Py.split LF (Py.strip response_string) in
  match Py.next_matching (Py.startswith "data: ") lines with
  | Some json_line => json_loads (Py.slice_from 6 json_line)
  | None => None
  end.

(** Line 280: the canonical frame. *)
Definition encode_frame (data : json) : string :=
  "event: message" ++ String LF ("data: " ++ json_dumps data ++ CRLF ++ CRLF).



(** The payload that replaces a filtered tool result. *)
Definition blocked_payload (id : json) (text : string) : json :=
  JObj [("jsonrpc", JStr "2.0");
        ("id", id);
        ("result",
         JObj [("content", JArr [JObj [("type", JStr "text"); ("text", JStr text)]]);
               ("isError", JBool true)])].

(** ** Handlers *)

Section Handlers.

(** The upstream server behind [httpx]: [None] is a transport failure. *)
Variable upstream : UpstreamCall -> option Response.

(** [sanitizer_instance.check(text)['is_injection']]: [None] when the
    detector raises. *)
Variable detector : string -> option bool.

(** What a handler produces: how it ended, the proxy afterwards, and the
    upstream calls it issued, oldest first. *)
Definition Result : Type := Outcome * MCPProxyMiddleware * list UpstreamCall.



(** Lines 350-431 of [handle_tool_call]: what happens to the upstream
    response. *)
Definition filter_response (tool_name : pykey) (response : Response)
    (self : MCPProxyMiddleware) : Outcome * MCPProxyMiddleware :=
  let response_string := content response in
  match detector response_string with
  | None => (HTTPException 500, self)
  | Some true =>
      let response_headers := strip_location (headers response) in
      if Py.startswith ("event: message" ++ CRLF ++ "data: ") response_string then
        match json_loads (Py.slice_from 22 response_string) with
        | None => (HTTPException 500, self)
        | Some response_data =>
            match subscript response_data "id" with
            | None => (HTTPException 500, self)
            | Some id =>
                (Returned
                   {| content :=
                        "event: message" ++ String LF ("data: "
                          ++ json_dumps (blocked_payload id
                               "Tool response blocked: prompt injection detected.")
                          ++ CRLF ++ CRLF);
                      status_code := status_code response;
                      headers := response_headers |},
                 self)
            end
        end
      else
        (* [response_data] is read before any assignment: UnboundLocalError,
           caught by the handler's [except Exception]. *)
        (HTTPException 500, self)
  | Some false =>
      (Returned {| content := content response;
                   status_code := status_code response;
                   headers := strip_location (headers response) |},
       count_usage tool_name self)
  end.

(** [now] and [fresh] are the clock readings of [check_rate_limit]. *)
Definition handle_tool_call (now fresh : Q) (path : option string) (request : Request)
    (self : MCPProxyMiddleware) : Result :=
  match json_loads (req_body request) with
  | None => (HTTPException 500, self, [])
  | Some data =>
      match get data "params" with
      | None => (HTTPException 500, self, [])
      | Some params =>
          match get params "name", get_default params "arguments" (JObj []) with
          | Some name, Some tool_args =>
              if negb (session self) then (HTTPException 503, self, [])
              else
                match key_of name with
                | None => (HTTPException 500, self, [])
                | Some tool_name =>
                    if negb (is_tool_allowed tool_name (security_config self)) then
                      (HTTPException 403, self, [])
                    else
                      let '(ok, cfg) :=
                        check_rate_limit now fresh tool_name (security_config self) in
                      let self := set_security_config cfg self in
                      if negb ok then (HTTPException 429, self, [])
                      else
                        (* [sanitized_args] is bound to [tool_args] and not
                           used again: the body sent on is [request.body()]. *)
                        match (if input_sanitization_enabled cfg
                               then sanitize_input cfg tool_args
                               else Some tool_args) with
                        | None => (HTTPException 500, self, [])
                        | Some _ =>
                            let call := forward self path request in
                            match upstream call with
                            | None => (HTTPException 500, self, [call])
                            | Some response =>
                                let '(out, self) := filter_response tool_name response self in
                                (out, self, [call])
                            end
                        end
                end
          | _, _ => (HTTPException 500, self, [])
          end
      end
  end.


End Handlers.

(** ** Runs of administrative and gate operations *)

(** A sequence of [/api/toggle-tool] requests, oldest first. *)
Definition run_toggles (ops : list (pykey * bool)) (cfg : SecurityConfig) : SecurityConfig :=
  fold_left (fun c op => toggle_tool (fst op) (snd op) c) ops cfg.

(** Successive rate-limit checks of one tool, each with its clock readings. *)
Fixpoint run_checks (times : list (Q * Q)) (tool_name : pykey) (cfg : SecurityConfig)
  : list bool * SecurityConfig :=
  match times with
  | [] => ([], cfg)
  | (now, fresh) :: rest =>
      let '(ok, cfg1) := check_rate_limit now fresh tool_name cfg in
      let '(oks, cfg2) := run_checks rest tool_name cfg1 in
      (ok :: oks, cfg2)
  end.

(** The count a check compares with the cap: zero once the window expired. *)
Definition window_count (now : Q) (e : RateLimit) : Z :=
  if Qle_bool 60 (now - last_reset e) then 0 else call_count e.

(** Every configured cap is positive: true of the defaults, and kept by the
    rate-limit endpoint, which ignores a limit that is not. *)
Definition caps_positive (cfg : SecurityConfig) : Prop :=
  forall k e, rate_limits cfg !! k = Some e -> 0 < calls_per_minute e.

(** The policy states the endpoints and the gate can produce from start-up. *)
Inductive reachable : SecurityConfig -> Prop :=
| reach_init : reachable SecurityConfig_init
| reach_toggle cfg k b : reachable cfg -> reachable (toggle_tool k b cfg)
| reach_update cfg fresh k z : reachable cfg -> reachable (update_rate_limit fresh k z cfg)
| reach_check cfg now fresh k :
    reachable cfg -> reachable (snd (check_rate_limit now fresh k cfg))
| reach_read cfg fresh k :
    reachable cfg -> reachable (read_rate_limit fresh k cfg)
| reach_test cfg fresh k :
    reachable cfg -> reachable (test_usage fresh k cfg).

(** "A tool never explicitly enabled stays rejected after the first enable",
    read over every later sequence of toggles. *)
Definition allow_list_mode_is_permanent : Prop :=
  forall cfg t ops u,
    u <> t -> u ∉ allowed_tools cfg -> (u, true) ∉ ops ->
    is_tool_allowed u (run_toggles ops (toggle_tool t true cfg)) = false.

(** ** Predicates used to state the codec's properties *)

(** Every object of a value has pairwise distinct keys, as a [dict] does. *)
Unset Elimination Schemes.
Inductive well_formed : json -> Prop :=
| wf_null : well_formed JNull
| wf_bool b : well_formed (JBool b)
| wf_int z : well_formed (JInt z)
| wf_str s : well_formed (JStr s)
| wf_arr l : Forall well_formed l -> well_formed (JArr l)
| wf_obj m :
    NoDup (map fst m) -> Forall (fun kv => well_formed (snd kv)) m ->
    well_formed (JObj m).
Set Elimination Schemes.

(** The characters a printed value can begin with. *)
Definition value_start (c : ascii) : bool :=
  let n := N_of_ascii c in
  ((n =? 34) || (n =? 91) || (n =? 123) || (n =? 110) || (n =? 116) || (n =? 102)
   || (n =? 45) || (48 <=? n) && (n <=? 57))%N.

Definition starts_value (s : string) : bool :=
  match s with
  | String c _ => value_start c
  | EmptyString => false
  end.

(** What can follow a printed value without being read as part of it. *)
Definition value_end (s : string) : bool :=
  match s with
  | EmptyString => true
  | String c _ =>
      match digit c with
      | Some _ => false
      | None => negb (number_continues s)
      end
  end.

(** All characters of [s] satisfy [p]. *)
Fixpoint all_chars (p : ascii -> bool) (s : string) : bool :=
  match s with
  | EmptyString => true
  | String c r => p c && all_chars p r
  end.

(** Printable ASCII other than the space. *)
Definition visible (c : ascii) : bool :=
  let n := N_of_ascii c in ((33 <=? n) && (n <=? 126))%N.

(** Printable ASCII. *)
Definition printable (c : ascii) : bool :=
  let n := N_of_ascii c in ((32 <=? n) && (n <=? 126))%N.

(** The last character of a non-empty string satisfies [p]. *)
Fixpoint last_char (p : ascii -> bool) (s : string) : bool :=
  match s with
  | EmptyString => false
  | String c EmptyString => p c
  | String _ r => last_char p r
  end.

(** What one value has to satisfy for the round trip, with fuel to spare. *)
Definition rescans (v : json) : Prop :=
  forall fuel rest,
    (String.length (json_dumps v) < fuel)%nat ->
    value_end rest = true ->
    scan_once fuel (json_dumps v ++ rest) = Some (v, rest).

(** One [key: value] item as [json_dumps] prints it. *)
Definition member (kv : string * json) : string :=
  dumps_str (fst kv) ++ ": " ++ json_dumps (snd kv).

(** ** Views of a request and of the policy used in the statements *)

(** The tool a [tools/call] body names, as lines 301-304 of
    [handle_tool_call] read it. *)
Definition tool_call_name (request : Request) : option pykey :=
  match json_loads (req_body request) with
  | Some data =>
      match get data "params" with
      | Some params =>
          match get params "name" with
          | Some name => key_of name
          | None => None
          end
      | None => None
      end
  | None => None
  end.

(** The arguments of the [tools/call] carried by a body. *)
Definition tool_call_arguments (body : string) : option json :=
  match json_loads body with
  | Some data =>
      match get data "params" with
      | Some params => get_default params "arguments" (JObj [])
      | None => None
      end
  | None => None
  end.

(** The key under which a tool descriptor is looked up in the blocked set. *)
Definition tool_key (tool : json) : option pykey :=
  match subscript tool "name" with
  | Some name => key_of name
  | None => None
  end.





(** ** [sanitizer.py]: the injection detector *)

(** [s.lower()] *)
Fixpoint str_lower (s : string) : string :=
  match s with
  | EmptyString => EmptyString
  | String c r => String (lower c) (str_lower r)
  end.

(** [pattern in text] *)
Fixpoint contains (pattern text : string) : bool :=
  Py.startswith pattern text
  || match text with
     | String _ r => contains pattern r
     | EmptyString => false
     end.

(** The dict a check returns: the rule-based shape and the model's shape.
    Scores are rationals. *)
Inductive Verdict : Type :=
| RuleBased (is_injection : bool) (pattern : option string) (confidence : Q)
| ML (is_injection : bool) (label : string) (confidence : Q) (text_length : nat).

(** [result['is_injection']] *)
Definition is_injection (v : Verdict) : bool :=
  match v with
  | RuleBased b _ _ => b
  | ML b _ _ _ => b
  end.

Definition injection_patterns : list string :=
  [ "ignore previous instructions";
    "forget everything above";
    "new instructions:";
    "system prompt";
    "you are now";
    "pretend to be";
    "roleplay as";
    "list all functions";
    "function name";
    "mock using the example" ].

Definition _rule_based_check (text : string) : Verdict :=
  let text_lower := str_lower text in
  match Py.next_matching (fun pattern => contains pattern text_lower) injection_patterns with
  | Some pattern => RuleBased true (Some pattern) (9 # 10)
  | None => RuleBased false None (1 # 10)
  end.

(** The text-classification pipeline: it answers the label and the score of
    its first result, or raises ([None]). *)
Definition Classifier : Type := string -> option (string * Q).

(** [classifier] is [None] when the model could not be loaded. *)
Record PromptSanitizer : Type := {
  threshold : Q;
  classifier : option Classifier
}.

(** [PromptSanitizer.check]: [None] is a raised exception.  The two
    [return rule_result] read a name that is never assigned (the lines that
    assign it are commented out), which raises [NameError]. *)
Definition check (self : PromptSanitizer) (text : string) : option Verdict :=
  match classifier self with
  | None => None
  | Some classify =>
      match classify text with
      | Some (label, score) =>
          let is_injection :=
            String.eqb label "untrusted" && negb (Qle_bool score (threshold self)) in
          Some (ML is_injection label score (String.length text))
      | None => None
      end
  end.


(** ** Status endpoints

    [self.available_tools], filled in by [connect_to_target_server], is
    handed to the endpoints that read it; [fresh k] is the clock reading of
    the [rate_limits] factory if it has to create the entry of [k]. *)

(** One element of the answer of [/api/tools]. *)
Record ToolStatus : Type := {
  st_name : json;
  st_description : json;
  st_enabled : bool;
  st_usage_count : Z;
  st_rate_limit : Z;
  st_current_usage : Z
}.

Definition set_tool_usage_counts (m : gmap pykey Z) (self : MCPProxyMiddleware)
  : MCPProxyMiddleware :=
  {| target_server_url := target_server_url self;
     security_config := security_config self;
     session := session self;
     tool_usage_counts := m |}.

(** The body of the loop of [get_tools_status].  Reading
    [rate_limits[tool_name]] and [tool_usage_counts[tool_name]] creates the
    entries that are missing. *)
Definition tool_status (fresh : pykey -> Q) (tool : json) (self : MCPProxyMiddleware)
  : option (ToolStatus * MCPProxyMiddleware) :=
  match subscript tool "name" with
  | None => None
  | Some tool_name =>
      match key_of tool_name with
      | None => None
      | Some k =>
          let cfg := security_config self in
          let is_enabled :=
            bool_decide (k ∉ blocked_tools cfg)
            && (bool_decide (allowed_tools cfg = ∅) || bool_decide (k ∈ allowed_tools cfg)) in
          let rate_limit_info := rate_limit_entry (fresh k) k cfg in
          let self := set_security_config (read_rate_limit (fresh k) k cfg) self in
          match get_default tool "description" (JStr EmptyString) with
          | None => None
          | Some description =>
              let usage_count := default 0 (tool_usage_counts self !! k) in
              let self :=
                set_tool_usage_counts (<[k := usage_count]> (tool_usage_counts self)) self in
              Some ({| st_name := tool_name;
                       st_description := description;
                       st_enabled := is_enabled;
                       st_usage_count := usage_count;
                       st_rate_limit := calls_per_minute rate_limit_info;
                       st_current_usage := call_count rate_limit_info |},
                    self)
          end
      end
  end.

(** The [/api/tools] endpoint: [None] when a descriptor has no usable name. *)
Fixpoint get_tools_status (fresh : pykey -> Q) (available_tools : list json)
    (self : MCPProxyMiddleware) : option (list ToolStatus * MCPProxyMiddleware) :=
  match available_tools with
  | [] => Some ([], self)
  | tool :: rest =>
      match tool_status fresh tool self with
      | None => None
      | Some (status, self) =>
          match get_tools_status fresh rest self with
          | None => None
          | Some (tools_status, self) => Some (status :: tools_status, self)
          end
      end
  end.

(** The answer of [/api/stats]. *)
Record Stats : Type := {
  total_tools : Z;
  enabled_tools : Z;
  disabled_tools : Z;
  total_usage : Z;
  tool_usage : gmap pykey Z
}.

(** [sum(1 for tool in available_tools if self.is_tool_allowed(tool["name"]))] *)
Fixpoint count_enabled (available_tools : list json) (cfg : SecurityConfig) : option Z :=
  match available_tools with
  | [] => Some 0
  | tool :: rest =>
      match tool_key tool, count_enabled rest cfg with
      | Some k, Some n => Some ((if is_tool_allowed k cfg then 1 else 0) + n)
      | _, _ => None
      end
  end.

(** [sum(d.values())] *)
Definition sum_values (d : gmap pykey Z) : Z := map_fold (fun _ v acc => v + acc) 0 d.

Definition get_stats (available_tools : list json) (self : MCPProxyMiddleware)
  : option Stats :=
  let total_tools := Z.of_nat (length available_tools) in
  match count_enabled available_tools (security_config self) with
  | None => None
  | Some enabled_tools =>
      Some {| total_tools := total_tools;
              enabled_tools := enabled_tools;
              disabled_tools := total_tools - enabled_tools;
              total_usage := sum_values (tool_usage_counts self);
              tool_usage := tool_usage_counts self |}
  end.

(** [[tool["name"] for tool in self.available_tools]] *)
Fixpoint tool_names (available_tools : list json) : option (list json) :=
  match available_tools with
  | [] => Some []
  | tool :: rest =>
      match subscript tool "name", tool_names rest with
      | Some name, Some names => Some (name :: names)
      | _, _ => None
      end
  end.

(** The [/api/test-usage] endpoint for a hashable [tool_name]: the
    [new_usage] of a successful answer ([None] for the answer
    [success: False]) and the proxy afterwards.  The outer [None] is the
    [KeyError] of a descriptor without a name. *)
Definition test_usage_request (fresh : pykey -> Q) (available_tools : list json)
    (tool_name : pykey) (self : MCPProxyMiddleware)
  : option (option Z * MCPProxyMiddleware) :=
  if truthy tool_name then
    match tool_names available_tools with
    | None => None
    | Some names =>
        if bool_decide (Some tool_name ∈ map key_of names) then
          let self := count_usage tool_name self in
          let self :=
            set_security_config
              (test_usage (fresh tool_name) tool_name (security_config self)) self in
          Some (Some (default 0 (tool_usage_counts self !! tool_name)), self)
        else Some (None, self)
    end
  else Some (None, self).

(** ** Views of the sanitizer used in the statements *)

(** [re.search(p, s, flags=re.IGNORECASE) is not None]: the pattern matches
    at some position of [s]. *)
Fixpoint re_search (p : regex) (s : string) : bool :=
  match match_here p s with
  | Some _ => true
  | None =>
      match s with
      | String _ r => re_search p r
      | EmptyString => false
      end
  end.

(** No denylisted pattern is found in [s]. *)
Definition pattern_free (patterns : list regex) (s : string) : bool :=
  forallb (fun p => negb (re_search p s)) patterns.

(** The strings [sanitize_input] rewrites: the string values of the
    dict, of the dicts nested in it and of the dicts that are items of its
    lists. *)
Fixpoint reached_strings (P : string -> bool) (value : json) : bool :=
  match value with
  | JStr s => P s
  | JObj m => forallb (fun kv => reached_strings P (snd kv)) m
  | JArr l =>
      forallb (fun item =>
                 match item with
                 | JObj m => forallb (fun kv => reached_strings P (snd kv)) m
                 | _ => true
                 end) l
  | _ => true
  end.

(** A value with the text of every string removed: what is left is its
    shape, the keys and the leaves that are not strings. *)
Fixpoint erase_strings (value : json) : json :=
  match value with
  | JStr _ => JStr EmptyString
  | JArr l => JArr (map erase_strings l)
  | JObj m => JObj (map (fun kv => (fst kv, erase_strings (snd kv))) m)
  | _ => value
  end.

(** No attempt to match [q] can consume the character [ch]. *)
Fixpoint avoids (ch : ascii) (q : regex) : bool :=
  match q with
  | [] => true
  | Lit c :: q' => negb (lit_matches c ch) && avoids ch q'
  | Spaces :: q' =>
      negb (Py.isspace ch) && negb (match q' with [] => true | _ => false end)
      && avoids ch q'
  end.

(** [q] matches at no position of [u]. *)
Fixpoint inert (q : regex) (u : string) : bool :=
  match u with
  | EmptyString => true
  | String _ r =>
      match match_here q u with
      | None => inert q r
      | Some _ => false
      end
  end.

(** What makes the replacement text safe for the pattern [q]: [q] begins with
    a literal, can consume neither bracket, and matches nowhere inside the
    replacement. *)
Definition replacement_safe (q : regex) : bool :=
  match q with
  | Lit _ :: _ => avoids "[" q && avoids "]" q && inert q "[BLOCKED]"
  | _ => false
  end.

(** Wherever the scan of [re.sub] for [p] finds no match in [s], the
    pattern [q] fails. *)
Fixpoint quiet (p q : regex) (s : string) : Prop :=
  match match_here p s with
  | Some (S _) => True
  | _ => match_here q s = None
  end
  /\ match s with
     | String _ r => quiet p q r
     | EmptyString => True
     end.

(** ** Views used in the statements of further properties *)

(** The entry after [n] more counted calls in the same window. *)
Definition counted (n : nat) (e : RateLimit) : RateLimit :=
  {| calls_per_minute := calls_per_minute e;
     last_reset := last_reset e;
     call_count := call_count e + Z.of_nat n |}.

(** How many further checks an entry lets through before its window ends. *)
Definition budget (e : RateLimit) : nat := Z.to_nat (calls_per_minute e - call_count e).


(** A run of [n] slashes. *)
Fixpoint slashes (n : nat) : string :=
  match n with
  | O => EmptyString
  | S n' => String "/" (slashes n')
  end.

(** An upstream frame around [payload] whose lines end with [eol]. *)
Definition framed (eol payload : string) : string :=
  "event: message" ++ eol ++ "data: " ++ payload ++ eol ++ eol.

(** ** Sample data *)

(** A proxy right after start-up, connected to its target. *)
Definition proxy0 : MCPProxyMiddleware :=
  {| target_server_url := "http://localhost:8123/mcp";
     security_config := SecurityConfig_init;
     session := true;
     tool_usage_counts := ∅ |}.

Definition with_config (f : SecurityConfig -> SecurityConfig) (self : MCPProxyMiddleware)
  : MCPProxyMiddleware :=
  set_security_config (f (security_config self)) self.

Definition post (body : string) : Request :=
  {| req_method := "POST"; req_headers := [("content-type", "application/json")];
     req_body := body |}.

(** The body of a [tools/call] of the tool [run]. *)
Definition tools_call (arguments : json) : json :=
  JObj [("jsonrpc", JStr "2.0"); ("id", JInt 7); ("method", JStr "tools/call");
        ("params", JObj [("name", JStr "run"); ("arguments", arguments)])].

(** A call of [run] with a denylisted argument. *)
Definition call_run : Request :=
  post (json_dumps (tools_call (JObj [("cmd", JStr "os.system('rm -rf /')")]))).

Definition tool_result : string :=
  json_dumps
    (JObj [("jsonrpc", JStr "2.0"); ("id", JInt 7);
           ("result",
            JObj [("content", JArr [JObj [("type", JStr "text"); ("text", JStr "done")]])])]).

(** An upstream answer framed with CRLF after the event line, and one framed
    with LF only. *)
Definition frame_crlf : string :=
  "event: message" ++ CRLF ++ "data: " ++ tool_result ++ CRLF ++ CRLF.

Definition frame_lf : string :=
  "event: message" ++ String LF ("data: " ++ tool_result ++ String LF (String LF EmptyString)).

Definition reply (body : string) : Response :=
  {| content := body; status_code := 200;
     headers := [("content-type", "text/event-stream"); ("location", "/elsewhere")] |}.

Definition tools_abc_names : list json :=
  [JObj [("name", JStr "A")]; JObj [("name", JStr "B")]; JObj [("name", JStr "C")]].




(** * Verification *)

(** ** Allow / block decision *)

Section PolicyFacts.

Implicit Types (t u : pykey) (cfg : SecurityConfig).

Lemma is_tool_allowed_true t cfg :
  is_tool_allowed t cfg = true <->
  (t ∉ blocked_tools cfg) /\ (allowed_tools cfg = ∅ \/ t ∈ allowed_tools cfg).
Proof.
  unfold is_tool_allowed.
  destruct (decide (allowed_tools cfg = ∅)) as [He|Hne];
    destruct (decide (t ∈ allowed_tools cfg));
    repeat case_bool_decide; simpl; intuition congruence.
Qed.

Lemma is_tool_allowed_false t cfg :
  is_tool_allowed t cfg = false <->
  t ∈ blocked_tools cfg \/ (allowed_tools cfg <> ∅ /\ (t ∉ allowed_tools cfg)).
Proof.
  unfold is_tool_allowed.
  repeat case_bool_decide; simpl; intuition congruence.
Qed.

Lemma toggle_tool_allowed t (b : bool) cfg u :
  u ∈ allowed_tools (toggle_tool t b cfg) <->
  (if b then u = t \/ u ∈ allowed_tools cfg else u <> t /\ u ∈ allowed_tools cfg).
Proof.
  unfold toggle_tool. destruct b; simpl.
  - rewrite elem_of_union, elem_of_singleton. tauto.
  - rewrite elem_of_difference, elem_of_singleton. tauto.
Qed.

Lemma toggle_tool_blocked t (b : bool) cfg u :
  u ∈ blocked_tools (toggle_tool t b cfg) <->
  (if b then u <> t /\ u ∈ blocked_tools cfg else u = t \/ u ∈ blocked_tools cfg).
Proof.
  unfold toggle_tool. destruct b; simpl.
  - rewrite elem_of_difference, elem_of_singleton. tauto.
  - rewrite elem_of_union, elem_of_singleton. tauto.
Qed.

Lemma init_allows_nothing_explicitly u : u ∉ allowed_tools SecurityConfig_init.
Proof. apply not_elem_of_empty. Qed.

Lemma init_blocks_nothing u : u ∉ blocked_tools SecurityConfig_init.
Proof. apply not_elem_of_empty. Qed.

Lemma allowed_tools_inhabited t cfg : t ∈ allowed_tools cfg -> allowed_tools cfg <> ∅.
Proof. intros Ht He. rewrite He in Ht. by apply not_elem_of_empty in Ht. Qed.

(** C5. [is_tool_allowed] rejects a tool exactly when it is blocked, or the
    allow-list is non-empty and does not contain it; so a blocked tool is
    rejected whatever the allow-list says, and an empty allow-list admits
    every tool that is not blocked. *)
Theorem tool_rejected_iff_blocked_or_unlisted t cfg :
  (is_tool_allowed t cfg = false <->
   t ∈ blocked_tools cfg \/ (allowed_tools cfg <> ∅ /\ (t ∉ allowed_tools cfg)))
  /\ (t ∈ blocked_tools cfg -> t ∈ allowed_tools cfg -> is_tool_allowed t cfg = false)
  /\ (allowed_tools cfg = ∅ -> (t ∉ blocked_tools cfg) -> is_tool_allowed t cfg = true).
Proof.
  unfold is_tool_allowed.
  repeat case_bool_decide; simpl; intuition congruence.
Qed.

Lemma tool_rejected_iff_blocked_or_unlisted_witness :
  let cfg := toggle_tool (KStr "B") false (toggle_tool (KStr "B") true SecurityConfig_init) in
  is_tool_allowed (KStr "B") cfg = false /\ is_tool_allowed (KStr "A") cfg = true.
Proof.
  intros cfg.
  destruct (tool_rejected_iff_blocked_or_unlisted (KStr "B") cfg) as [[_ Hb] _].
  destruct (tool_rejected_iff_blocked_or_unlisted (KStr "A") cfg) as [_ [_ Ha]].
  split.
  - apply Hb. left. apply toggle_tool_blocked. by left.
  - apply Ha.
    + apply elem_of_equiv_empty_L. intros x. unfold cfg.
      rewrite !toggle_tool_allowed. intros [Hne [->|Hin]]; [done|].
      by apply init_allows_nothing_explicitly in Hin.
    + unfold cfg. rewrite !toggle_tool_blocked. intros [[=]|[_ Hin]].
      by apply init_blocks_nothing in Hin.
Defined.

End PolicyFacts.

(** ** Rate limiting *)

Section RateLimitFacts.

Implicit Types (k : pykey) (cfg : SecurityConfig) (e : RateLimit) (now fresh : Q).

Lemma rate_limit_entry_present fresh k cfg e :
  rate_limits cfg !! k = Some e -> rate_limit_entry fresh k cfg = e.
Proof. unfold rate_limit_entry. by intros ->. Qed.

Lemma rate_limit_entry_insert fresh k cfg e :
  rate_limit_entry fresh k (set_rate_limits (<[k := e]> (rate_limits cfg)) cfg) = e.
Proof. unfold rate_limit_entry. simpl. by rewrite lookup_insert_eq. Qed.

Lemma window_open now e :
  (now - last_reset e < 60)%Q -> Qle_bool 60 (now - last_reset e) = false.
Proof.
  intros H. destruct (Qle_bool 60 (now - last_reset e)) eqn:E; [|done].
  apply Qle_bool_iff in E. exfalso. eapply Qlt_not_le; eauto.
Qed.

Lemma window_expired now e :
  (60 <= now - last_reset e)%Q -> Qle_bool 60 (now - last_reset e) = true.
Proof. intros H. by apply Qle_bool_iff. Qed.

(** Inside the window a check passes while the count is below the cap. *)
Lemma check_within_window_pass now fresh k cfg :
  let e := rate_limit_entry fresh k cfg in
  (now - last_reset e < 60)%Q ->
  call_count e < calls_per_minute e ->
  check_rate_limit now fresh k cfg =
    (true, set_rate_limits
             (<[k := {| calls_per_minute := calls_per_minute e;
                        last_reset := last_reset e;
                        call_count := call_count e + 1 |}]> (rate_limits cfg)) cfg).
Proof.
  intros e Hw Hc. unfold check_rate_limit. fold e.
  rewrite (window_open _ _ Hw).
  destruct (Z.leb_spec (calls_per_minute e) (call_count e)); [lia|done].
Qed.

Lemma check_within_window_fail now fresh k cfg :
  let e := rate_limit_entry fresh k cfg in
  (now - last_reset e < 60)%Q ->
  calls_per_minute e <= call_count e ->
  check_rate_limit now fresh k cfg =
    (false, set_rate_limits (<[k := e]> (rate_limits cfg)) cfg).
Proof.
  intros e Hw Hc. unfold check_rate_limit. fold e.
  rewrite (window_open _ _ Hw).
  destruct (Z.leb_spec (calls_per_minute e) (call_count e)); [done|lia].
Qed.

Lemma check_after_expiry now fresh k cfg :
  let e := rate_limit_entry fresh k cfg in
  (60 <= now - last_reset e)%Q ->
  0 < calls_per_minute e ->
  check_rate_limit now fresh k cfg =
    (true, set_rate_limits
             (<[k := {| calls_per_minute := calls_per_minute e;
                        last_reset := now;
                        call_count := 1 |}]> (rate_limits cfg)) cfg).
Proof.
  intros e Hw Hc. unfold check_rate_limit. fold e.
  rewrite (window_expired _ _ Hw). simpl.
  destruct (Z.leb_spec (calls_per_minute e) 0); [lia|done].
Qed.

Lemma run_checks_budget (n : nat) : forall times k cfg,
  length times = S n ->
  (let e := rate_limit_entry (default 0%Q (snd <$> head times)) k cfg in
   calls_per_minute e - call_count e = Z.of_nat n /\
   Forall (fun t => (fst t - last_reset e < 60)%Q) times) ->
  fst (run_checks times k cfg) = (replicate n true ++ [false])%list.
Proof.
  induction n as [|n IH]; intros times k cfg Hlen [Hcap Hwin].
  - destruct times as [|[now fresh] [|]]; try discriminate. simpl in *.
    inversion_clear Hwin as [|? ? Hw _]. simpl in Hw.
    rewrite check_within_window_fail by (done || lia). done.
  - destruct times as [|[now fresh] times]; [discriminate|].
    simpl in Hlen, Hcap, Hwin. injection Hlen as Hlen.
    inversion_clear Hwin as [|? ? Hw Hrest]. simpl in Hw.
    cbn [run_checks].
    rewrite check_within_window_pass by (done || lia).
    match goal with |- context [run_checks times k ?c] => 
      specialize (IH times k c Hlen) end.
    destruct (run_checks times k _) as [oks cfg2]. simpl in *.
    f_equal. apply IH.
    rewrite !rate_limit_entry_insert. simpl. split; [lia|done].
Qed.

Lemma check_rate_limit_other now fresh k k' cfg :
  k' <> k ->
  rate_limits (snd (check_rate_limit now fresh k cfg)) !! k' = rate_limits cfg !! k'.
Proof.
  intros Hne. unfold check_rate_limit.
  repeat match goal with |- context [if ?b then _ else _] => destruct b end;
    simpl; by rewrite lookup_insert_ne.
Qed.

Lemma check_rate_limit_count now fresh k cfg :
  exists e',
    rate_limits (snd (check_rate_limit now fresh k cfg)) !! k = Some e' /\
    call_count e' =
      window_count now (rate_limit_entry fresh k cfg)
      + (if fst (check_rate_limit now fresh k cfg) then 1 else 0).
Proof.
  unfold check_rate_limit, window_count.
  destruct (Qle_bool 60 _); simpl;
    match goal with |- context [if ?b then _ else _] => destruct b end;
    simpl; eexists; rewrite lookup_insert_eq; (split; [reflexivity|simpl; lia]).
Qed.

End RateLimitFacts.

(** ** JSON codec *)

Section StringFacts.

Lemma append_cons (x : ascii) (a b : string) : String x a ++ b = String x (a ++ b).
Proof. reflexivity. Qed.

Lemma append_nil_l (a : string) : EmptyString ++ a = a.
Proof. reflexivity. Qed.

Lemma append_assoc (a b c : string) : (a ++ b) ++ c = a ++ (b ++ c).
Proof. induction a as [|x a IH]; [done|]. by rewrite !append_cons, IH. Qed.

Lemma append_nil_r (a : string) : a ++ EmptyString = a.
Proof. induction a as [|x a IH]; [done|]. by rewrite append_cons, IH. Qed.

Lemma length_append (a b : string) :
  String.length (a ++ b) = (String.length a + String.length b)%nat.
Proof. induction a as [|x a IH]; [done|]. rewrite append_cons. simpl. by rewrite IH. Qed.

End StringFacts.

Section ScanString.

Lemma scanstring_escape_char (c : ascii) (t : string) :
  scanstring (escape_char c ++ t) = cons_str c (scanstring t).
Proof.
  destruct c as [[] [] [] [] [] [] [] []]; reflexivity.
Qed.

Lemma scanstring_escape (s rest : string) :
  scanstring (escape s ++ String DQUOTE rest) = Some (s, rest).
Proof.
  induction s as [|c s IH]; [done|].
  cbn [escape]. rewrite append_assoc, scanstring_escape_char, IH. done.
Qed.

End ScanString.

Section ScanNumber.

Lemma scan_digits_uint (d : uint) (rest : string) :
  value_end rest = true ->
  scan_digits (NilEmpty.string_of_uint d ++ rest) = (d, rest).
Proof.
  intros Hrest.
  induction d; cbn [NilEmpty.string_of_uint];
    rewrite ?append_cons, ?append_nil_l; cbn [scan_digits];
    try (change (digit _) with (Some D0) || change (digit _) with (Some D1)
         || change (digit _) with (Some D2) || change (digit _) with (Some D3)
         || change (digit _) with (Some D4) || change (digit _) with (Some D5)
         || change (digit _) with (Some D6) || change (digit _) with (Some D7)
         || change (digit _) with (Some D8) || change (digit _) with (Some D9));
    cbv iota beta; rewrite ?IHd; try done.
  destruct rest as [|c r]; [done|]. cbn [scan_digits].
  unfold value_end in Hrest. destruct (digit c); [done|done].
Qed.

Lemma value_end_continues (rest : string) :
  value_end rest = true -> number_continues rest = false.
Proof.
  destruct rest as [|c r]; [done|]. unfold value_end.
  destruct (digit c); [done|]. by destruct (number_continues _).
Qed.

Lemma scan_unsigned_uint (d : uint) (rest : string) :
  int_part_ok d = true -> value_end rest = true ->
  scan_unsigned (NilEmpty.string_of_uint d ++ rest) = Some (d, rest).
Proof.
  intros Hd Hrest. unfold scan_unsigned.
  rewrite scan_digits_uint by done.
  by rewrite Hd, value_end_continues.
Qed.

Lemma pos_to_uint_int_part (p : positive) : int_part_ok (Pos.to_uint p) = true.
Proof.
  pose proof (DecimalPos.Unsigned.to_uint_nonnil p) as Hnil.
  pose proof (DecimalPos.Unsigned.to_uint_nonzero p) as Hzero.
  pose proof (DecimalPos.Unsigned.to_of (Pos.to_uint p)) as Hnorm.
  rewrite DecimalPos.Unsigned.of_to in Hnorm. simpl in Hnorm.
  destruct (Pos.to_uint p) as [|d| | | | | | | | |] eqn:E; try done.
  destruct d; try done.
  all: exfalso; rewrite DecimalFacts.unorm_D0 in Hnorm;
    match type of Hnorm with _ = unorm ?u =>
      destruct (uint_eq_dec (nzhead u) Nil) as [Hz|Hz];
      [ unfold unorm in Hnorm; rewrite Hz in Hnorm; discriminate
      | rewrite (DecimalFacts.unorm_nzhead _ Hz) in Hnorm;
        symmetry in Hnorm; by apply DecimalFacts.nzhead_nonzero in Hnorm ]
    end.
Qed.

Lemma uint_head (d : uint) (rest : string) :
  d <> Nil ->
  exists c r, NilEmpty.string_of_uint d ++ rest = String c r
              /\ digit c <> None /\ strip_prefix "-" (String c r) = None.
Proof.
  intros Hd. destruct d; [done|..]; cbn [NilEmpty.string_of_uint];
    rewrite append_cons; eexists _, _; (split; [reflexivity|]); by split.
Qed.

Lemma scan_number_unsigned (d : uint) (rest : string) :
  d <> Nil -> int_part_ok d = true -> value_end rest = true ->
  scan_number (NilEmpty.string_of_uint d ++ rest) = Some (JInt (Z.of_int (Pos d)), rest).
Proof.
  intros Hnil Hd Hrest. unfold scan_number.
  destruct (uint_head d rest Hnil) as (c & r & E & _ & Hm).
  rewrite E, Hm, <- E. by rewrite scan_unsigned_uint.
Qed.

Lemma scan_number_dumps_int (z : Z) (rest : string) :
  value_end rest = true ->
  scan_number (dumps_int z ++ rest) = Some (JInt z, rest).
Proof.
  intros Hrest. unfold dumps_int.
  rewrite <- (DecimalZ.of_to z) at 2.
  destruct z as [|p|p]; cbn [Z.to_int NilEmpty.string_of_int].
  - by apply scan_number_unsigned.
  - apply scan_number_unsigned;
      [apply DecimalPos.Unsigned.to_uint_nonnil|apply pos_to_uint_int_part|done].
  - rewrite append_cons. unfold scan_number. cbn [strip_prefix].
    change (Ascii.eqb "-" "-") with true. cbv iota.
    by rewrite scan_unsigned_uint by (done || apply pos_to_uint_int_part).
Qed.

End ScanNumber.

Section ScanEquations.

Variable fuel : nat.

Lemma scan_once_quote (r : string) :
  scan_once (S fuel) (String DQUOTE r) =
    match scanstring r with
    | Some (str, rest) => Some (JStr str, rest)
    | None => None
    end.
Proof. reflexivity. Qed.

Lemma scan_once_bracket (r : string) :
  scan_once (S fuel) (String "[" r) =
    match strip_prefix "]" (skip_ws r) with
    | Some rest => Some (JArr [], rest)
    | None =>
        match scan_items fuel (skip_ws r) with
        | Some (l, rest) => Some (JArr l, rest)
        | None => None
        end
    end.
Proof. reflexivity. Qed.

Lemma scan_once_brace (r : string) :
  scan_once (S fuel) (String "{" r) =
    match strip_prefix "}" (skip_ws r) with
    | Some rest => Some (JObj [], rest)
    | None =>
        match scan_members fuel (skip_ws r) with
        | Some (m, rest) => Some (JObj (dict_of_pairs m), rest)
        | None => None
        end
    end.
Proof. reflexivity. Qed.

Lemma scan_once_other (c : ascii) (r : string) :
  Ascii.eqb c DQUOTE = false -> Ascii.eqb c "[" = false -> Ascii.eqb c "{" = false ->
  scan_once (S fuel) (String c r) = scan_literal (String c r).
Proof. intros H1 H2 H3. cbn [scan_once]. by rewrite H1, H2, H3. Qed.

Lemma scan_items_eq (s : string) :
  scan_items (S fuel) s =
    match scan_once fuel s with
    | None => None
    | Some (v, r) =>
        match strip_prefix "]" (skip_ws r) with
        | Some rest => Some ([v], rest)
        | None =>
            match strip_prefix "," (skip_ws r) with
            | Some r1 =>
                match scan_items fuel (skip_ws r1) with
                | Some (l, rest) => Some (v :: l, rest)
                | None => None
                end
            | None => None
            end
        end
    end.
Proof. reflexivity. Qed.

Lemma scan_members_eq (s : string) :
  scan_members (S fuel) s =
    match strip_prefix (String DQUOTE EmptyString) s with
    | None => None
    | Some r =>
        match scanstring r with
        | None => None
        | Some (k, r1) =>
            match strip_prefix ":" (skip_ws r1) with
            | None => None
            | Some r2 =>
                match scan_once fuel (skip_ws r2) with
                | None => None
                | Some (v, r3) =>
                    match strip_prefix "}" (skip_ws r3) with
                    | Some rest => Some ([(k, v)], rest)
                    | None =>
                        match strip_prefix "," (skip_ws r3) with
                        | Some r4 =>
                            match scan_members fuel (skip_ws r4) with
                            | Some (m, rest) => Some ((k, v) :: m, rest)
                            | None => None
                            end
                        | None => None
                        end
                    end
                end
            end
        end
    end.
Proof. reflexivity. Qed.

End ScanEquations.

Section PrintedShape.

Lemma value_start_digit (c : ascii) : digit c <> None -> value_start c = true.
Proof. destruct c as [[] [] [] [] [] [] [] []]; done. Qed.

Lemma value_start_props (c : ascii) :
  value_start c = true ->
  json_ws c = false /\ Ascii.eqb "]" c = false /\ Ascii.eqb "}" c = false
  /\ Ascii.eqb "," c = false /\ Ascii.eqb ":" c = false.
Proof. destruct c as [[] [] [] [] [] [] [] []]; done. Qed.

Lemma skip_ws_value (s : string) : starts_value s = true -> skip_ws s = s.
Proof.
  destruct s as [|c r]; [done|]. intros H%value_start_props.
  cbn [skip_ws]. by destruct H as [-> _].
Qed.

Lemma strip_prefix_value (s : string) :
  starts_value s = true ->
  strip_prefix "]" s = None /\ strip_prefix "}" s = None.
Proof.
  destruct s as [|c r]; [done|]. intros H%value_start_props.
  cbn [strip_prefix]. by destruct H as (_ & -> & -> & _).
Qed.

Lemma dumps_int_head (z : Z) (rest : string) :
  exists c r, dumps_int z ++ rest = String c r
              /\ (digit c <> None \/ c = "-"%char).
Proof.
  unfold dumps_int.
  destruct z as [|p|p]; cbn [Z.to_int NilEmpty.string_of_int].
  - destruct (uint_head zero rest) as (c & r & E & Hd & _); [done|]. eauto.
  - destruct (uint_head (Pos.to_uint p) rest) as (c & r & E & Hd & _).
    { apply DecimalPos.Unsigned.to_uint_nonnil. }
    eauto.
  - rewrite append_cons. eauto.
Qed.

Lemma json_dumps_starts_value (v : json) (rest : string) :
  starts_value (json_dumps v ++ rest) = true.
Proof.
  destruct v as [|[]|z| | |]; try reflexivity.
  cbn [json_dumps].
  destruct (dumps_int_head z rest) as (c & r & -> & [H| ->]); [|done].
  by apply value_start_digit.
Qed.

Lemma scan_once_number_head (fuel : nat) (c : ascii) (r : string) :
  digit c <> None \/ c = "-"%char ->
  scan_once (S fuel) (String c r) = scan_number (String c r).
Proof.
  intros [H| ->]; [|reflexivity].
  destruct c as [[] [] [] [] [] [] [] []]; done.
Qed.

End PrintedShape.

Section Dict.

Implicit Types (m acc : list (string * json)) (k : string) (v : json).

Lemma dict_set_fresh k v acc :
  k ∉ map fst acc -> dict_set k v acc = (acc ++ [(k, v)])%list.
Proof.
  induction acc as [|[k' v'] acc IH]; intros Hk; [done|].
  cbn [dict_set]. simpl in Hk.
  destruct (String.eqb_spec k k') as [->|Hne].
  - exfalso. apply Hk. by left.
  - rewrite IH; [done|]. intros Hin. apply Hk. by right.
Qed.

Lemma fold_dict_set_fresh m : forall acc,
  NoDup (map fst m) ->
  (forall k, k ∈ map fst m -> k ∉ map fst acc) ->
  fold_left (fun d kv => dict_set (fst kv) (snd kv) d) m acc = (acc ++ m)%list.
Proof.
  induction m as [|[k v] m IH]; intros acc Hnd Hdisj.
  - by rewrite app_nil_r.
  - simpl in *. apply NoDup_cons in Hnd as [Hk Hnd].
    rewrite dict_set_fresh by (apply Hdisj; by left).
    rewrite IH; [by rewrite <- app_assoc|done|].
    intros k' Hk'. rewrite map_app. simpl.
    intros [Hin|Hin%list_elem_of_singleton]%elem_of_app.
    + eapply Hdisj; [by right|done].
    + by subst.
Qed.

Lemma dict_of_pairs_nodup m : NoDup (map fst m) -> dict_of_pairs m = m.
Proof.
  intros Hnd. unfold dict_of_pairs.
  rewrite fold_dict_set_fresh; [done|done|].
  intros k _. simpl. apply not_elem_of_nil.
Qed.

End Dict.

(** Evaluates the whitespace and delimiter tests of the scanner on the
    literal characters at the head of the input. *)
Ltac scan_simpl :=
  repeat (progress
    (cbn [skip_ws strip_prefix];
     repeat match goal with
       | |- context [json_ws (Ascii ?a ?b ?c ?d ?e ?f ?g ?h)] =>
           let x := constr:(json_ws (Ascii a b c d e f g h)) in
           let y := eval vm_compute in x in
           change x with y
       | |- context [Ascii.eqb (Ascii ?a ?b ?c ?d ?e ?f ?g ?h)
                               (Ascii ?a' ?b' ?c' ?d' ?e' ?f' ?g' ?h')] =>
           let x := constr:(Ascii.eqb (Ascii a b c d e f g h)
                                      (Ascii a' b' c' d' e' f' g' h')) in
           let y := eval vm_compute in x in
           change x with y
       end;
     cbv iota)).

Section RoundTrip.

Lemma join_starts_value {A} (f : A -> string) (l : list A) (rest : string) :
  l <> [] ->
  (forall x tail, starts_value (f x ++ tail) = true) ->
  starts_value (join ", " (map f l) ++ rest) = true.
Proof.
  intros Hl Hf. destruct l as [|x [|y t]]; [done|..]; cbn [map join].
  - apply Hf.
  - rewrite append_assoc. apply Hf.
Qed.

Lemma scan_items_join (l : list json) :
  l <> [] -> Forall rescans l ->
  forall fuel rest,
    (String.length (join ", " (map json_dumps l)) + 1 < fuel)%nat ->
    scan_items fuel (join ", " (map json_dumps l) ++ String "]" rest) = Some (l, rest).
Proof.
  induction l as [|x t IH]; [done|]. intros _ Hall fuel rest Hfuel.
  apply Forall_cons in Hall as [Hx Ht].
  destruct fuel as [|fuel]; [lia|]. rewrite scan_items_eq.
  destruct t as [|y t].
  - cbn [map join] in *.
    rewrite Hx by (done || lia). reflexivity.
  - change (join ", " (map json_dumps (x :: y :: t)))
      with (json_dumps x ++ ", " ++ join ", " (map json_dumps (y :: t))) in *.
    rewrite !length_append in Hfuel. rewrite !append_assoc.
    rewrite Hx by (done || lia).
    change ((", " ++ ?a)) with (String "," (String " " a)).
    scan_simpl.
    rewrite skip_ws_value by (apply join_starts_value; [done|apply json_dumps_starts_value]).
    rewrite IH; [done|done|done|].
    change (String.length ", ") with 2%nat in Hfuel. lia.
Qed.


Lemma member_shape (kv : string * json) (tail : string) :
  member kv ++ tail =
    String DQUOTE (escape (fst kv) ++
      String DQUOTE (String ":" (String " " (json_dumps (snd kv) ++ tail)))).
Proof.
  unfold member, dumps_str.
  rewrite !append_cons, !append_assoc, !append_cons, !append_assoc. reflexivity.
Qed.

Lemma member_length (kv : string * json) :
  (String.length (json_dumps (snd kv)) < String.length (member kv))%nat.
Proof.
  unfold member, dumps_str. rewrite !length_append. simpl. lia.
Qed.

Lemma member_starts_value (kv : string * json) (tail : string) :
  starts_value (member kv ++ tail) = true.
Proof. by rewrite member_shape. Qed.

Lemma scan_members_join (m : list (string * json)) :
  m <> [] -> Forall (fun kv => rescans (snd kv)) m ->
  forall fuel rest,
    (String.length (join ", " (map member m)) + 1 < fuel)%nat ->
    scan_members fuel (join ", " (map member m) ++ String "}" rest) = Some (m, rest).
Proof.
  induction m as [|[k v] t IH]; [done|]. intros _ Hall fuel rest Hfuel.
  apply Forall_cons in Hall as [Hx Ht]. simpl in Hx.
  destruct fuel as [|fuel]; [lia|]. rewrite scan_members_eq.
  pose proof (member_length (k, v)) as Hlen. cbn [snd] in Hlen.
  destruct t as [|y t].
  - cbn [map join] in *.
    rewrite member_shape. cbn [fst snd]. scan_simpl.
    rewrite scanstring_escape. scan_simpl.
    rewrite skip_ws_value by apply json_dumps_starts_value.
    rewrite Hx by (done || lia). reflexivity.
  - change (join ", " (map member ((k, v) :: y :: t)))
      with (member (k, v) ++ ", " ++ join ", " (map member (y :: t))) in *.
    rewrite !length_append in Hfuel.
    change (String.length ", ") with 2%nat in Hfuel.
    rewrite append_assoc, member_shape. cbn [fst snd]. scan_simpl.
    rewrite scanstring_escape. scan_simpl.
    rewrite skip_ws_value by apply json_dumps_starts_value.
    rewrite append_assoc.
    change ((", " ++ ?a)) with (String "," (String " " a)).
    rewrite Hx by (done || lia). scan_simpl.
    rewrite skip_ws_value by (apply join_starts_value; [done|apply member_starts_value]).
    rewrite IH; [done|done|done|lia].
Qed.

Lemma json_dumps_obj (m : list (string * json)) :
  json_dumps (JObj m) = String "{" (join ", " (map member m) ++ "}").
Proof. reflexivity. Qed.

Lemma json_dumps_arr (l : list json) :
  json_dumps (JArr l) = String "[" (join ", " (map json_dumps l) ++ "]").
Proof. reflexivity. Qed.

Lemma scan_once_dumps (v : json) : well_formed v -> rescans v.
Proof.
  induction v as [|b|z|s|l IH|m IH] using json_induction; intros Hwf fuel rest Hfuel Hrest;
    (destruct fuel as [|fuel]; [lia|]).
  - reflexivity.
  - by destruct b.
  - cbn [json_dumps].
    destruct (dumps_int_head z rest) as (c & r & E & Hc).
    rewrite E, scan_once_number_head, <- E by done.
    by apply scan_number_dumps_int.
  - cbn [json_dumps]. unfold dumps_str.
    rewrite append_cons, append_assoc, append_cons, append_nil_l.
    by rewrite scan_once_quote, scanstring_escape.
  - rewrite json_dumps_arr in *. rewrite append_cons, append_assoc.
    change ("]" ++ rest) with (String "]" rest).
    rewrite scan_once_bracket.
    destruct (decide (l = [])) as [->|Hne]; [reflexivity|].
    rewrite skip_ws_value by (apply join_starts_value; [done|apply json_dumps_starts_value]).
    destruct (strip_prefix_value (join ", " (map json_dumps l) ++ String "]" rest))
      as [-> _].
    { apply join_starts_value; [done|apply json_dumps_starts_value]. }
    inversion_clear Hwf as [| | | |? Hall|].
    rewrite scan_items_join; [done|done| |].
    + apply Forall_forall. intros x Hx.
      rewrite Forall_forall in IH, Hall. by apply IH, Hall.
    + simpl in Hfuel. rewrite length_append in Hfuel. simpl in Hfuel. lia.
  - rewrite json_dumps_obj in *. rewrite append_cons, append_assoc.
    change ("}" ++ rest) with (String "}" rest).
    rewrite scan_once_brace.
    destruct (decide (m = [])) as [->|Hne]; [reflexivity|].
    rewrite skip_ws_value by (apply join_starts_value; [done|apply member_starts_value]).
    destruct (strip_prefix_value (join ", " (map member m) ++ String "}" rest))
      as [_ ->].
    { apply join_starts_value; [done|apply member_starts_value]. }
    inversion_clear Hwf as [| | | | |? Hnd Hall].
    rewrite scan_members_join; [by rewrite dict_of_pairs_nodup|done| |].
    + apply Forall_forall. intros x Hx.
      rewrite Forall_forall in IH, Hall. by apply IH, Hall.
    + simpl in Hfuel. rewrite length_append in Hfuel. simpl in Hfuel. lia.
Qed.

Lemma loads_dumps (v : json) : well_formed v -> json_loads (json_dumps v) = Some v.
Proof.
  intros Hwf. unfold json_loads.
  pose proof (json_dumps_starts_value v EmptyString) as Hs.
  rewrite append_nil_r in Hs. rewrite skip_ws_value by done.
  rewrite <- (append_nil_r (json_dumps v)) at 2.
  rewrite scan_once_dumps by (done || lia). reflexivity.
Qed.

End RoundTrip.

Section ScanWellFormed.

Implicit Types (m acc : list (string * json)) (k : string) (v : json).

Lemma dict_set_keys k v acc :
  map fst (dict_set k v acc) =
    if bool_decide (k ∈ map fst acc) then map fst acc else (map fst acc ++ [k])%list.
Proof.
  induction acc as [|[k' v'] acc IH]; [done|].
  cbn [dict_set]. destruct (String.eqb_spec k k') as [->|Hne].
  - simpl. rewrite bool_decide_eq_true_2; [done|by left].
  - simpl. rewrite IH. case_bool_decide as H1; case_bool_decide as H2; try done.
    + exfalso. apply H2. by right.
    + exfalso. apply elem_of_cons in H2 as [?|?]; done.
Qed.

Lemma dict_set_nodup k v acc : NoDup (map fst acc) -> NoDup (map fst (dict_set k v acc)).
Proof.
  intros H. rewrite dict_set_keys. case_bool_decide; [done|].
  apply NoDup_app. split; [done|]. split; [|apply NoDup_singleton].
  intros x Hx ->%list_elem_of_singleton. done.
Qed.

Lemma dict_set_values (P : json -> Prop) k v acc :
  P v -> Forall (fun kv => P (snd kv)) acc ->
  Forall (fun kv => P (snd kv)) (dict_set k v acc).
Proof.
  intros Hv. induction 1 as [|[k' v'] acc Hx Hacc IH]; cbn [dict_set].
  - by constructor.
  - destruct (String.eqb k k'); constructor; done.
Qed.

Lemma dict_of_pairs_well_formed m :
  Forall (fun kv => well_formed (snd kv)) m -> well_formed (JObj (dict_of_pairs m)).
Proof.
  intros Hm. unfold dict_of_pairs.
  assert (Hgen : forall acc,
    NoDup (map fst acc) -> Forall (fun kv => well_formed (snd kv)) acc ->
    let d := fold_left (fun d kv => dict_set (fst kv) (snd kv) d) m acc in
    NoDup (map fst d) /\ Forall (fun kv => well_formed (snd kv)) d).
  { induction Hm as [|[k v] m Hv Hm IH]; intros acc Hnd Hacc; [done|].
    simpl. apply IH; [by apply dict_set_nodup|by apply dict_set_values]. }
  destruct (Hgen [] (NoDup_nil_2) (Forall_nil_2 _)) as [H1 H2].
  by constructor.
Qed.

Lemma scan_literal_well_formed (s : string) v r :
  scan_literal s = Some (v, r) -> well_formed v.
Proof.
  unfold scan_literal, scan_number.
  repeat match goal with
    | |- context [match ?x with _ => _ end] => destruct x as [?|] eqn:?
    | p : _ * _ |- _ => destruct p
    end; intros [= <- <-]; constructor.
Qed.

Lemma scan_well_formed (fuel : nat) :
  (forall s v r, scan_once fuel s = Some (v, r) -> well_formed v)
  /\ (forall s l r, scan_items fuel s = Some (l, r) -> Forall well_formed l)
  /\ (forall s m r, scan_members fuel s = Some (m, r) ->
        Forall (fun kv => well_formed (snd kv)) m).
Proof.
  induction fuel as [|fuel (IHv & IHl & IHm)]; [by repeat split|].
  repeat split.
  - intros [|c s] v r; [done|]. cbn [scan_once].
    destruct (Ascii.eqb c DQUOTE).
    { destruct (scanstring s) as [[str rest]|]; intros [= <- <-]; constructor. }
    destruct (Ascii.eqb c "[").
    { destruct (strip_prefix "]" (skip_ws s)); [intros [= <- <-]; by constructor|].
      destruct (scan_items fuel (skip_ws s)) as [[l rest]|] eqn:E; intros [= <- <-].
      constructor. eauto. }
    destruct (Ascii.eqb c "{").
    { destruct (strip_prefix "}" (skip_ws s)); [intros [= <- <-]; repeat constructor|].
      destruct (scan_members fuel (skip_ws s)) as [[m rest]|] eqn:E; intros [= <- <-].
      apply dict_of_pairs_well_formed. eauto. }
    apply scan_literal_well_formed.
  - intros s l r. rewrite scan_items_eq.
    destruct (scan_once fuel s) as [[v r0]|] eqn:Ev; [|done].
    destruct (strip_prefix "]" (skip_ws r0)).
    { intros [= <- <-]. constructor; eauto. }
    destruct (strip_prefix "," (skip_ws r0)); [|done].
    destruct (scan_items fuel _) as [[l' rest]|] eqn:El; intros [= <- <-].
    constructor; eauto.
  - intros s m r. rewrite scan_members_eq.
    destruct (strip_prefix (String DQUOTE EmptyString) s); [|done].
    destruct (scanstring _) as [[k r1]|]; [|done].
    destruct (strip_prefix ":" _); [|done].
    destruct (scan_once fuel _) as [[v r3]|] eqn:Ev; [|done].
    destruct (strip_prefix "}" (skip_ws r3)).
    { intros [= <- <-]. constructor; [simpl|constructor]; eauto. }
    destruct (strip_prefix "," (skip_ws r3)); [|done].
    destruct (scan_members fuel _) as [[m' rest]|] eqn:Em; intros [= <- <-].
    constructor; [simpl|]; eauto.
Qed.

Lemma json_loads_well_formed (s : string) v : json_loads s = Some v -> well_formed v.
Proof.
  unfold json_loads.
  destruct (scan_once _ _) as [[v' rest]|] eqn:E; [|done].
  destruct (skip_ws rest); intros [= <-].
  eapply scan_well_formed, E.
Qed.

End ScanWellFormed.

(** ** The scanner never runs out of fuel *)

Section ScanFuel.

Lemma skip_ws_length (s : string) : (String.length (skip_ws s) <= String.length s)%nat.
Proof.
  induction s as [|c s IH]; [done|]. cbn [skip_ws].
  destruct (json_ws c); simpl; lia.
Qed.

Lemma strip_prefix_length (lit s r : string) :
  strip_prefix lit s = Some r ->
  String.length s = (String.length lit + String.length r)%nat.
Proof.
  revert s. induction lit as [|a lit IH]; intros [|b s]; cbn [strip_prefix]; try done.
  - by intros [= <-].
  - by intros [= <-].
  - destruct (Ascii.eqb a b); [|done]. intros H%IH. simpl. lia.
Qed.

Lemma cons_str_length (c : ascii) (x : option (string * string)) (k r : string) (n : nat) :
  (forall k' r', x = Some (k', r') -> (String.length r' < n)%nat) ->
  cons_str c x = Some (k, r) -> (String.length r < n)%nat.
Proof.
  intros H. destruct x as [[k' r']|]; [|done]. intros [= <- <-]. by eapply H.
Qed.

Lemma scanstring_length_bounded (n : nat) : forall s k r,
  (String.length s <= n)%nat ->
  scanstring s = Some (k, r) -> (String.length r < String.length s)%nat.
Proof.
  induction n as [|n IH]; intros s k r Hn.
  { destruct s; [done|simpl in Hn; lia]. }
  destruct s as [|c s]; [done|]. cbn [scanstring]. simpl in Hn.
  destruct (N_of_ascii c =? 34)%N.
  { intros [= <- <-]. simpl. lia. }
  destruct (N_of_ascii c =? 92)%N.
  { destruct s as [|e s]; [done|].
    destruct (N_of_ascii e =? 117)%N.
    - destruct s as [|h1 [|h2 [|h3 [|h4 s]]]]; try done.
      destruct (hex4 h1 h2 h3 h4); [|done].
      apply cons_str_length. intros k' r' H%IH; simpl in *; lia.
    - destruct (unescape e); [|done].
      apply cons_str_length. intros k' r' H%IH; simpl in *; lia. }
  destruct (N_of_ascii c <? 32)%N; [done|].
  apply cons_str_length. intros k' r' H%IH; simpl in *; lia.
Qed.

Lemma scanstring_length (s : string) k r :
  scanstring s = Some (k, r) -> (String.length r < String.length s)%nat.
Proof. by apply (scanstring_length_bounded (String.length s)). Qed.

Lemma scan_digits_length (s : string) : forall d r,
  scan_digits s = (d, r) ->
  (String.length r <= String.length s)%nat
  /\ (d <> Nil -> (String.length r < String.length s)%nat).
Proof.
  induction s as [|c s IH]; intros d r; cbn [scan_digits].
  - intros [= <- <-]. done.
  - destruct (digit c) as [D|].
    + destruct (scan_digits s) as [d' r'] eqn:E. intros [= <- <-].
      destruct (IH d' r' eq_refl) as [H _]. simpl. split; intros; lia.
    + intros [= <- <-]. done.
Qed.

Lemma scan_unsigned_length (s : string) d r :
  scan_unsigned s = Some (d, r) -> (String.length r < String.length s)%nat.
Proof.
  unfold scan_unsigned. destruct (scan_digits s) as [d' r'] eqn:E.
  destruct (int_part_ok d') eqn:Hd; [|done]. destruct (negb _); [|done].
  intros [= <- <-]. apply (scan_digits_length s d' r' E). by destruct d'.
Qed.

Lemma scan_literal_length (s : string) v r :
  scan_literal s = Some (v, r) -> (String.length r < String.length s)%nat.
Proof.
  unfold scan_literal, scan_number.
  repeat match goal with
    | |- context [match strip_prefix ?l s with _ => _ end] =>
        let E := fresh "E" in
        destruct (strip_prefix l s) eqn:E;
        [apply strip_prefix_length in E; simpl in E|]
    | |- context [match scan_unsigned ?x with _ => _ end] =>
        let E := fresh "E" in
        destruct (scan_unsigned x) as [[? ?]|] eqn:E;
        [apply scan_unsigned_length in E|]
    end; intros [= <- <-]; lia.
Qed.

Lemma scan_length (fuel : nat) :
  (forall s v r, scan_once fuel s = Some (v, r) ->
     (String.length r < String.length s)%nat)
  /\ (forall s l r, scan_items fuel s = Some (l, r) ->
        (String.length r < String.length s)%nat)
  /\ (forall s m r, scan_members fuel s = Some (m, r) ->
        (String.length r < String.length s)%nat).
Proof.
  induction fuel as [|fuel (IHv & IHl & IHm)]; [by repeat split|].
  repeat split.
  - intros [|c s] v r; [done|]. cbn [scan_once].
    pose proof (skip_ws_length s) as Hws.
    destruct (Ascii.eqb c DQUOTE).
    { destruct (scanstring s) as [[str rest]|] eqn:E; intros [= <- <-].
      apply scanstring_length in E. simpl. lia. }
    destruct (Ascii.eqb c "[").
    { destruct (strip_prefix "]" (skip_ws s)) eqn:E1.
      - intros [= <- <-]. apply strip_prefix_length in E1. simpl in *. lia.
      - destruct (scan_items fuel (skip_ws s)) as [[l rest]|] eqn:E; intros [= <- <-].
        apply IHl in E. simpl. lia. }
    destruct (Ascii.eqb c "{").
    { destruct (strip_prefix "}" (skip_ws s)) eqn:E1.
      - intros [= <- <-]. apply strip_prefix_length in E1. simpl in *. lia.
      - destruct (scan_members fuel (skip_ws s)) as [[m rest]|] eqn:E; intros [= <- <-].
        apply IHm in E. simpl. lia. }
    apply scan_literal_length.
  - intros s l r. rewrite scan_items_eq.
    destruct (scan_once fuel s) as [[v r0]|] eqn:Ev; [|done]. apply IHv in Ev.
    pose proof (skip_ws_length r0) as Hws.
    destruct (strip_prefix "]" (skip_ws r0)) eqn:E1.
    { intros [= <- <-]. apply strip_prefix_length in E1. simpl in *. lia. }
    destruct (strip_prefix "," (skip_ws r0)) as [r1|] eqn:E2; [|done].
    apply strip_prefix_length in E2. pose proof (skip_ws_length r1) as Hws1.
    destruct (scan_items fuel _) as [[l' rest]|] eqn:El; intros [= <- <-].
    apply IHl in El. simpl in *. lia.
  - intros s m r. rewrite scan_members_eq.
    destruct (strip_prefix _ s) as [r0|] eqn:E0; [|done]. apply strip_prefix_length in E0.
    destruct (scanstring r0) as [[k r1]|] eqn:Ek; [|done]. apply scanstring_length in Ek.
    pose proof (skip_ws_length r1) as Hws1.
    destruct (strip_prefix ":" _) as [r2|] eqn:E2; [|done]. apply strip_prefix_length in E2.
    pose proof (skip_ws_length r2) as Hws2.
    destruct (scan_once fuel _) as [[v r3]|] eqn:Ev; [|done]. apply IHv in Ev.
    pose proof (skip_ws_length r3) as Hws3.
    destruct (strip_prefix "}" (skip_ws r3)) eqn:E3.
    { intros [= <- <-]. apply strip_prefix_length in E3. simpl in *. lia. }
    destruct (strip_prefix "," (skip_ws r3)) as [r4|] eqn:E4; [|done].
    apply strip_prefix_length in E4. pose proof (skip_ws_length r4) as Hws4.
    destruct (scan_members fuel _) as [[m' rest]|] eqn:Em; intros [= <- <-].
    apply IHm in Em. simpl in *. lia.
Qed.

(** Beyond twice the length of the input the amount of fuel does not matter:
    no scan fails for want of it. *)
Lemma scan_fuel_irrelevant (f : nat) :
  (forall f' s, (2 * String.length s < f)%nat -> (2 * String.length s < f')%nat ->
     scan_once f s = scan_once f' s)
  /\ (forall f' s, (2 * String.length s + 1 < f)%nat -> (2 * String.length s + 1 < f')%nat ->
        scan_items f s = scan_items f' s)
  /\ (forall f' s, (2 * String.length s + 1 < f)%nat -> (2 * String.length s + 1 < f')%nat ->
        scan_members f s = scan_members f' s).
Proof.
  induction f as [|f (IHv & IHl & IHm)]; [repeat split; intros; lia|].
  repeat split; intros [|f'] s Hf Hf'; try lia.
  - destruct s as [|c s]; [done|]. cbn [scan_once]. simpl in Hf, Hf'.
    pose proof (skip_ws_length s) as Hws.
    rewrite (IHl f' (skip_ws s)) by lia. rewrite (IHm f' (skip_ws s)) by lia. done.
  - rewrite !scan_items_eq. rewrite (IHv f' s) by lia.
    destruct (scan_once f' s) as [[v r]|] eqn:Ev; [|done].
    apply scan_length in Ev. pose proof (skip_ws_length r) as Hws.
    destruct (strip_prefix "]" (skip_ws r)); [done|].
    destruct (strip_prefix "," (skip_ws r)) as [r1|] eqn:E1; [|done].
    apply strip_prefix_length in E1. pose proof (skip_ws_length r1) as Hws1.
    simpl in E1. rewrite (IHl f' (skip_ws r1)) by lia. done.
  - rewrite !scan_members_eq.
    destruct (strip_prefix _ s) as [r0|] eqn:E0; [|done]. apply strip_prefix_length in E0.
    destruct (scanstring r0) as [[k r1]|] eqn:Ek; [|done]. apply scanstring_length in Ek.
    pose proof (skip_ws_length r1) as Hws1.
    destruct (strip_prefix ":" _) as [r2|] eqn:E2; [|done]. apply strip_prefix_length in E2.
    pose proof (skip_ws_length r2) as Hws2. simpl in E0, E2.
    rewrite (IHv f' (skip_ws r2)) by lia.
    destruct (scan_once f' _) as [[v r3]|] eqn:Ev; [|done]. apply scan_length in Ev.
    pose proof (skip_ws_length r3) as Hws3.
    destruct (strip_prefix "}" (skip_ws r3)); [done|].
    destruct (strip_prefix "," (skip_ws r3)) as [r4|] eqn:E4; [|done].
    apply strip_prefix_length in E4. pose proof (skip_ws_length r4) as Hws4.
    simpl in E4. rewrite (IHm f' (skip_ws r4)) by lia. done.
Qed.

(** [json_loads] with any larger amount of fuel gives the same answer. *)
Lemma json_loads_fuel (s : string) (extra : nat) :
  scan_once (S (2 * String.length s) + extra) (skip_ws s)
  = scan_once (S (2 * String.length s)) (skip_ws s).
Proof.
  pose proof (skip_ws_length s).
  apply scan_fuel_irrelevant; lia.
Qed.

End ScanFuel.

(** ** Frames *)

Section CharFacts.

Implicit Types (p : ascii -> bool) (a b s t : string) (c : ascii).

Lemma all_chars_app p a b :
  all_chars p (a ++ b) = all_chars p a && all_chars p b.
Proof.
  induction a as [|c a IH]; [done|].
  rewrite append_cons. cbn [all_chars]. by rewrite IH, andb_assoc.
Qed.

Lemma all_chars_impl p (q : ascii -> bool) s :
  (forall c, p c = true -> q c = true) ->
  all_chars p s = true -> all_chars q s = true.
Proof.
  intros Hpq. induction s as [|c s IH]; [done|]. cbn [all_chars].
  intros [H1 H2]%andb_prop. by rewrite Hpq, IH.
Qed.

Lemma last_char_app_r p a b :
  b <> EmptyString -> last_char p (a ++ b) = last_char p b.
Proof.
  intros Hb. induction a as [|c a IH]; [done|].
  rewrite append_cons. cbn [last_char]. rewrite IH.
  destruct (a ++ b) eqn:E; [|done].
  destruct a; [|done]. by rewrite append_nil_l in E.
Qed.

Lemma last_char_snoc p a c : last_char p (a ++ String c EmptyString) = p c.
Proof. by rewrite last_char_app_r. Qed.

Lemma visible_not_space c : visible c = true -> Py.isspace c = false.
Proof. destruct c as [[] [] [] [] [] [] [] []]; done. Qed.

Lemma printable_not_lf c : printable c = true -> negb (Ascii.eqb c LF) = true.
Proof. destruct c as [[] [] [] [] [] [] [] []]; done. Qed.

Lemma rstrip_spaces t : all_chars Py.isspace t = true -> Py.rstrip t = EmptyString.
Proof.
  induction t as [|c t IH]; [done|]. cbn [all_chars Py.rstrip].
  intros [H1 H2]%andb_prop. by rewrite IH, H1.
Qed.

Lemma rstrip_app_spaces s t :
  all_chars Py.isspace t = true -> Py.rstrip (s ++ t) = Py.rstrip s.
Proof.
  intros Ht. induction s as [|c s IH]; [by apply rstrip_spaces|].
  rewrite append_cons. cbn [Py.rstrip]. by rewrite IH.
Qed.

Lemma rstrip_last s : last_char visible s = true -> Py.rstrip s = s.
Proof.
  induction s as [|c s IH]; [done|]. cbn [last_char Py.rstrip].
  destruct s as [|d s].
  - intros H%visible_not_space. by rewrite H.
  - intros H. by rewrite IH.
Qed.

Lemma split_no_sep (sep : ascii) s :
  all_chars (fun c => negb (Ascii.eqb c sep)) s = true -> Py.split sep s = [s].
Proof.
  induction s as [|c s IH]; [done|]. cbn [all_chars Py.split].
  intros [H1 H2]%andb_prop. apply negb_true_iff in H1. by rewrite H1, IH.
Qed.

Lemma split_app (sep : ascii) a b :
  all_chars (fun c => negb (Ascii.eqb c sep)) a = true ->
  Py.split sep (a ++ String sep b) = a :: Py.split sep b.
Proof.
  induction a as [|c a IH].
  - intros _. rewrite append_nil_l. cbn [Py.split]. by rewrite Ascii.eqb_refl.
  - cbn [all_chars]. intros [H1 H2]%andb_prop. apply negb_true_iff in H1.
    rewrite append_cons. cbn [Py.split]. by rewrite H1, IH.
Qed.

End CharFacts.

Section PrintedChars.

Lemma escape_char_printable (c : ascii) : all_chars printable (escape_char c) = true.
Proof. destruct c as [[] [] [] [] [] [] [] []]; reflexivity. Qed.

Lemma escape_printable (s : string) : all_chars printable (escape s) = true.
Proof.
  induction s as [|c s IH]; [done|]. cbn [escape].
  by rewrite all_chars_app, escape_char_printable, IH.
Qed.

Lemma dumps_str_printable (s : string) : all_chars printable (dumps_str s) = true.
Proof.
  unfold dumps_str. cbn [all_chars].
  by rewrite all_chars_app, escape_printable.
Qed.

Lemma uint_printable (d : uint) : all_chars printable (NilEmpty.string_of_uint d) = true.
Proof. induction d; cbn [NilEmpty.string_of_uint all_chars]; by rewrite ?IHd. Qed.

Lemma uint_last (d : uint) :
  d <> Nil -> last_char visible (NilEmpty.string_of_uint d) = true.
Proof.
  induction d as [|d IH|d IH|d IH|d IH|d IH|d IH|d IH|d IH|d IH|d IH]; intros Hd; [done|..];
    (destruct (uint_eq_dec d Nil) as [->|Hne]; [reflexivity|]);
    specialize (IH Hne); cbn [NilEmpty.string_of_uint last_char];
    destruct (NilEmpty.string_of_uint d) eqn:E; try done; by destruct d.
Qed.

Lemma dumps_int_printable (z : Z) : all_chars printable (dumps_int z) = true.
Proof.
  unfold dumps_int.
  destruct z; cbn [Z.to_int NilEmpty.string_of_int all_chars];
    by rewrite ?uint_printable.
Qed.

Lemma dumps_int_last (z : Z) : last_char visible (dumps_int z) = true.
Proof.
  unfold dumps_int.
  destruct z as [|p|p]; cbn [Z.to_int NilEmpty.string_of_int]; [done| |].
  - apply uint_last, DecimalPos.Unsigned.to_uint_nonnil.
  - change (String "-" ?s) with ("-" ++ s).
    rewrite last_char_app_r; [apply uint_last, DecimalPos.Unsigned.to_uint_nonnil|].
    pose proof (DecimalPos.Unsigned.to_uint_nonnil p). by destruct (Pos.to_uint p).
Qed.

Lemma join_printable (parts : list string) :
  Forall (fun s => all_chars printable s = true) parts ->
  all_chars printable (join ", " parts) = true.
Proof.
  induction 1 as [|x t Hx Ht IH]; [done|].
  destruct t as [|y t]; [done|].
  change (join ", " (x :: y :: t)) with (x ++ ", " ++ join ", " (y :: t)).
  by rewrite !all_chars_app, Hx, IH.
Qed.

Lemma json_dumps_printable (v : json) : all_chars printable (json_dumps v) = true.
Proof.
  induction v as [|b|z|s|l IH|m IH] using json_induction.
  - reflexivity.
  - by destruct b.
  - apply dumps_int_printable.
  - apply dumps_str_printable.
  - rewrite json_dumps_arr. cbn [all_chars].
    rewrite all_chars_app, join_printable; [done|].
    by apply Forall_map.
  - rewrite json_dumps_obj. cbn [all_chars].
    rewrite all_chars_app, join_printable; [done|].
    apply Forall_map. eapply Forall_impl; [exact IH|].
    intros [k v] Hv. unfold member. cbn [fst snd] in *.
    by rewrite !all_chars_app, dumps_str_printable, Hv.
Qed.

Lemma json_dumps_last (v : json) : last_char visible (json_dumps v) = true.
Proof.
  destruct v as [|[]|z|s|l|m]; try reflexivity.
  - apply dumps_int_last.
  - cbn [json_dumps]. unfold dumps_str.
    change (String DQUOTE (?a ++ ?b)) with (String DQUOTE a ++ b).
    by rewrite last_char_snoc.
  - rewrite json_dumps_arr.
    change (String "[" (?a ++ ?b)) with (String "[" a ++ b).
    by rewrite last_char_snoc.
  - rewrite json_dumps_obj.
    change (String "{" (?a ++ ?b)) with (String "{" a ++ b).
    by rewrite last_char_snoc.
Qed.

End PrintedChars.

Section FrameFacts.




End FrameFacts.


(** ** Rate limiting: invariant and the claim *)

Section RateLimitClaim.

Implicit Types (k : pykey) (cfg : SecurityConfig) (e : RateLimit) (now fresh : Q).

Lemma caps_positive_entry fresh k cfg :
  caps_positive cfg -> 0 < calls_per_minute (rate_limit_entry fresh k cfg).
Proof.
  intros H. unfold rate_limit_entry.
  destruct (rate_limits cfg !! k) as [e|] eqn:E; simpl; [by eapply H|lia].
Qed.

Lemma caps_positive_insert k e cfg :
  caps_positive cfg -> 0 < calls_per_minute e ->
  caps_positive (set_rate_limits (<[k := e]> (rate_limits cfg)) cfg).
Proof.
  intros H He k' e'. simpl. rewrite lookup_insert.
  case_decide; [by intros [= <-]|apply H].
Qed.

Lemma caps_positive_check now fresh k cfg :
  caps_positive cfg -> caps_positive (snd (check_rate_limit now fresh k cfg)).
Proof.
  intros H. pose proof (caps_positive_entry fresh k cfg H) as He.
  unfold check_rate_limit.
  repeat match goal with |- context [if ?b then _ else _] => destruct b end;
    simpl; by apply caps_positive_insert.
Qed.

Lemma caps_positive_update fresh k z cfg :
  caps_positive cfg -> caps_positive (update_rate_limit fresh k z cfg).
Proof.
  intros H. unfold update_rate_limit.
  destruct (truthy k && _) eqn:E; [|done].
  apply andb_prop in E as [_ E%Z.ltb_lt]. by apply caps_positive_insert.
Qed.

Lemma reachable_caps_positive cfg : reachable cfg -> caps_positive cfg.
Proof.
  induction 1 as [|cfg k b _ IH|cfg fresh k z _ IH|cfg now fresh k _ IH
                  |cfg fresh k _ IH|cfg fresh k _ IH].
  - intros k e. simpl. by rewrite lookup_empty.
  - unfold toggle_tool. by destruct b.
  - by apply caps_positive_update.
  - by apply caps_positive_check.
  - apply caps_positive_insert; [done|by apply caps_positive_entry].
  - apply caps_positive_insert; [done|]. by apply caps_positive_entry.
Qed.

End RateLimitClaim.

(** ** The [tools/call] handler *)

Section ToolCallFacts.

Variable upstream : UpstreamCall -> option Response.
Variable detector : string -> option bool.

Implicit Types (k : pykey) (self : MCPProxyMiddleware) (request : Request)
  (now fresh : Q) (path : option string).

Lemma tool_call_name_inv request k :
  tool_call_name request = Some k ->
  exists data params name args,
    json_loads (req_body request) = Some data
    /\ get data "params" = Some params
    /\ get params "name" = Some name
    /\ get_default params "arguments" (JObj []) = Some args
    /\ key_of name = Some k.
Proof.
  unfold tool_call_name.
  destruct (json_loads (req_body request)) as [data|]; [|done].
  destruct (get data "params") as [params|] eqn:Ep; [|done].
  destruct (get params "name") as [name|] eqn:En; [|done].
  intros Hk. exists data, params, name.
  destruct params; try discriminate. eexists. eauto 10.
Qed.

Lemma forward_set_security_config cfg self path request :
  forward (set_security_config cfg self) path request = forward self path request.
Proof. reflexivity. Qed.

(** Without a readable tool name the handler raises before the gate. *)
Lemma handle_tool_call_unnamed now fresh path request self :
  tool_call_name request = None ->
  exists status,
    handle_tool_call upstream detector now fresh path request self
    = (HTTPException status, self, []).
Proof.
  unfold tool_call_name, handle_tool_call.
  destruct (json_loads (req_body request)) as [data|]; [|eauto].
  destruct (get data "params") as [params|]; [|eauto].
  destruct (get params "name") as [name|]; [|eauto].
  destruct (get_default params "arguments" (JObj [])); [|eauto].
  intros ->. destruct (negb (session self)); eauto.
Qed.

(** The handler on a request that names a tool, stage by stage. *)
Lemma handle_tool_call_named now fresh path request self k :
  tool_call_name request = Some k ->
  exists args,
    tool_call_arguments (req_body request) = Some args /\
    handle_tool_call upstream detector now fresh path request self =
      if negb (session self) then (HTTPException 503, self, [])
      else if negb (is_tool_allowed k (security_config self)) then
        (HTTPException 403, self, [])
      else
        let checked := check_rate_limit now fresh k (security_config self) in
        let self1 := set_security_config (snd checked) self in
        if negb (fst checked) then (HTTPException 429, self1, [])
        else
          match (if input_sanitization_enabled (snd checked)
                 then sanitize_input (snd checked) args else Some args) with
          | None => (HTTPException 500, self1, [])
          | Some _ =>
              match upstream (forward self path request) with
              | None => (HTTPException 500, self1, [forward self path request])
              | Some response =>
                  (fst (filter_response detector k response self1),
                   snd (filter_response detector k response self1),
                   [forward self path request])
              end
          end.
Proof.
  intros (data & params & name & args & E1 & E2 & E3 & E4 & E5)%tool_call_name_inv.
  exists args. split.
  { unfold tool_call_arguments. by rewrite E1, E2. }
  unfold handle_tool_call. rewrite E1, E2, E3, E4, E5.
  destruct (negb (session self)); [done|].
  destruct (negb (is_tool_allowed _ _)); [done|].
  destruct (check_rate_limit _ _ _ _) as [ok cfg]. cbn [fst snd].
  destruct (negb ok); [done|].
  destruct (if input_sanitization_enabled cfg then _ else _); [|done].
  rewrite forward_set_security_config.
  destruct (upstream _); [|done].
  by destruct (filter_response _ _ _ _).
Qed.

Lemma filter_response_config k response self :
  security_config (snd (filter_response detector k response self)) = security_config self.
Proof.
  unfold filter_response.
  repeat match goal with
    | |- context [match ?x with _ => _ end] => destruct x
    end; reflexivity.
Qed.

(** Every upstream call of the handler carries the inbound body as it
    came. *)
Lemma handle_tool_call_forwards_raw now fresh path request self :
  let calls := snd (handle_tool_call upstream detector now fresh path request self) in
  calls = [] \/ calls = [forward self path request].
Proof.
  destruct (tool_call_name request) as [k|] eqn:Ek.
  - destruct (handle_tool_call_named now fresh path request self k Ek) as (args & _ & ->).
    cbv zeta.
    repeat match goal with
      | |- context [match ?x with _ => _ end] => destruct x
      end; simpl; auto.
  - destruct (handle_tool_call_unnamed now fresh path request self Ek) as (s & ->).
    simpl; auto.
Qed.

(** The handler touches the policy through [check_rate_limit] only. *)
Lemma handle_tool_call_config now fresh path request self :
  let self' := snd (fst (handle_tool_call upstream detector now fresh path request self)) in
  security_config self' = security_config self
  \/ exists k, tool_call_name request = Some k
       /\ security_config self' = snd (check_rate_limit now fresh k (security_config self)).
Proof.
  destruct (tool_call_name request) as [k|] eqn:Ek.
  - destruct (handle_tool_call_named now fresh path request self k Ek) as (args & _ & ->).
    cbv zeta.
    repeat match goal with
      | |- context [match ?x with _ => _ end] => destruct x
      end; cbn [fst snd]; rewrite ?filter_response_config; eauto.
  - destruct (handle_tool_call_unnamed now fresh path request self Ek) as (s & ->).
    simpl; auto.
Qed.

(** A response judged an injection that does not begin with the exact
    CRLF-framed prefix ends in an internal error. *)
Lemma filter_response_unexpected_frame k response self :
  detector (content response) = Some true ->
  Py.startswith ("event: message" ++ CRLF ++ "data: ") (content response) = false ->
  filter_response detector k response self = (HTTPException 500, self).
Proof. intros Hd Hp. unfold filter_response. by rewrite Hd, Hp. Qed.


(** Past the gate the handler issues exactly one upstream call. *)
Lemma handle_tool_call_past_gate now fresh path request self k :
  tool_call_name request = Some k ->
  session self = true ->
  is_tool_allowed k (security_config self) = true ->
  fst (check_rate_limit now fresh k (security_config self)) = true ->
  (exists m, tool_call_arguments (req_body request) = Some (JObj m)) ->
  snd (handle_tool_call upstream detector now fresh path request self)
  = [forward self path request].
Proof.
  intros Hk Hs Ha Hr (m & Hm).
  destruct (handle_tool_call_named now fresh path request self k Hk) as (args & Hargs & ->).
  rewrite Hm in Hargs. injection Hargs as <-.
  cbv zeta. rewrite Hs, Ha, Hr. cbn [negb].
  destruct (input_sanitization_enabled _); cbn [sanitize_input];
    by destruct (upstream _).
Qed.

(** Past the gate the arguments the upstream server receives are those of
    the inbound body, whatever [sanitize_input] made of them. *)
Lemma handle_tool_call_forwards_arguments now fresh path request self k m :
  tool_call_name request = Some k ->
  session self = true ->
  is_tool_allowed k (security_config self) = true ->
  fst (check_rate_limit now fresh k (security_config self)) = true ->
  tool_call_arguments (req_body request) = Some (JObj m) ->
  map (fun c => tool_call_arguments (call_content c))
      (snd (handle_tool_call upstream detector now fresh path request self))
  = [Some (JObj m)].
Proof.
  intros Hk Hs Ha Hr Hm.
  rewrite (handle_tool_call_past_gate now fresh path request self k) by eauto.
  simpl. by rewrite Hm.
Qed.

End ToolCallFacts.

Section RateLimitWindow.

Lemma run_checks_reachable times k cfg :
  reachable cfg -> reachable (snd (run_checks times k cfg)).
Proof.
  revert cfg. induction times as [|[now fresh] times IH]; intros cfg H; [done|].
  cbn [run_checks].
  pose proof (reach_check cfg now fresh k H) as H1.
  destruct (check_rate_limit now fresh k cfg) as [ok cfg1]. simpl in H1.
  specialize (IH cfg1 H1). by destruct (run_checks times k cfg1).
Qed.

End RateLimitWindow.

(** C4. With cap C and a fresh window, C checks inside the window pass and
    the next one is refused; a check at least 60 seconds after the window
    start resets the window to start now and passes; and the count a check
    leaves behind is the window's count plus one exactly when the check
    passed, the gate of [handle_tool_call] changing the policy in no other
    way. *)
Theorem rate_limit_window :
  (forall (C : nat) (now0 fresh0 : Q) (later : list (Q * Q)) k cfg,
      length later = C ->
      let e := rate_limit_entry fresh0 k cfg in
      calls_per_minute e = Z.of_nat C ->
      call_count e = 0 ->
      Forall (fun t => (fst t - last_reset e < 60)%Q) ((now0, fresh0) :: later) ->
      fst (run_checks ((now0, fresh0) :: later) k cfg) = (replicate C true ++ [false])%list)
  /\ (forall (now fresh : Q) k cfg,
        reachable cfg ->
        let e := rate_limit_entry fresh k cfg in
        (60 <= now - last_reset e)%Q ->
        exists cfg' e',
          check_rate_limit now fresh k cfg = (true, cfg')
          /\ rate_limits cfg' !! k = Some e'
          /\ last_reset e' = now
          /\ call_count e' = 0 + 1
          /\ calls_per_minute e' = calls_per_minute e)
  /\ (forall (now fresh : Q) k cfg,
        let checked := check_rate_limit now fresh k cfg in
        exists e',
          rate_limits (snd checked) !! k = Some e'
          /\ call_count e' =
               window_count now (rate_limit_entry fresh k cfg)
               + (if fst checked then 1 else 0))
  /\ (forall upstream detector (now fresh : Q) path request self,
        let self' :=
          snd (fst (handle_tool_call upstream detector now fresh path request self)) in
        security_config self' = security_config self
        \/ exists k, tool_call_name request = Some k
             /\ security_config self'
                = snd (check_rate_limit now fresh k (security_config self))).
Proof.
  split; [|split; [|split]].
  - intros C now0 fresh0 later k cfg Hlen e Hcap Hcount Hwin.
    apply run_checks_budget; [simpl; lia|]. simpl. fold e. split; [lia|done].
  - intros now fresh k cfg Hreach e Hexp.
    pose proof (caps_positive_entry fresh k cfg (reachable_caps_positive cfg Hreach)) as Hpos.
    rewrite check_after_expiry by done.
    eexists _, _. split; [reflexivity|]. simpl. rewrite lookup_insert_eq. done.
  - intros now fresh k cfg. apply check_rate_limit_count.
  - intros. apply handle_tool_call_config.
Qed.

Lemma rate_limit_window_witness :
  let run := KStr "run" in
  let cfg3 := update_rate_limit 0 run 3 SecurityConfig_init in
  let rapid := [(1%Q, 1%Q); (2%Q, 2%Q); (3%Q, 3%Q); (4%Q, 4%Q)] in
  fst (run_checks rapid run cfg3) = [true; true; true; false]
  /\ exists cfg' e',
       check_rate_limit 61 61 run (snd (run_checks rapid run cfg3)) = (true, cfg')
       /\ rate_limits cfg' !! run = Some e'
       /\ last_reset e' = 61%Q /\ call_count e' = 1.
Proof.
  intros run cfg3 rapid.
  destruct rate_limit_window as (Hbudget & Hreset & _).
  split.
  - apply (Hbudget 3%nat 1%Q 1%Q [(2%Q, 2%Q); (3%Q, 3%Q); (4%Q, 4%Q)] run cfg3).
    + reflexivity.
    + reflexivity.
    + reflexivity.
    + repeat constructor.
  - destruct (Hreset 61%Q 61%Q run (snd (run_checks rapid run cfg3)))
      as (cfg' & e' & H1 & H2 & H3 & H4 & _).
    + apply run_checks_reachable. apply reach_update, reach_init.
    + vm_compute. discriminate.
    + exists cfg', e'. auto.
Defined.

(** ** Gate outcomes and usage counters *)



(** ** Argument sanitization *)

Section SanitizeFacts.

Implicit Types (patterns : list regex) (l : list json).

(** Items of a list that are not dicts come back as they are, strings
    included. *)
Lemma sanitize_value_list_of_strings patterns (items : list string) :
  sanitize_value patterns (JArr (map JStr items)) = JArr (map JStr items).
Proof.
  cbn [sanitize_value]. f_equal. induction items as [|s items IH]; [done|].
  simpl. by rewrite IH.
Qed.

(** Values that are neither strings, dicts nor lists are untouched. *)
Lemma sanitize_value_scalar patterns (v : json) :
  match v with JNull | JBool _ | JInt _ => True | _ => False end ->
  sanitize_value patterns v = v.
Proof. by destruct v. Qed.

(** The keys of a dict and their order are kept. *)
Lemma sanitize_input_keys cfg m args :
  sanitize_input cfg (JObj m) = Some args ->
  exists m', args = JObj m' /\ map fst m' = map fst m.
Proof.
  intros [= <-]. eexists. split; [reflexivity|].
  rewrite map_map. by apply map_ext.
Qed.

End SanitizeFacts.

(** C2. On the dict [{"cmds": ["os.system('rm -rf /')"]}] the string sits in a
    list and [sanitize_input] hands it back with the denylisted text intact,
    while the same string as a dict value, as in the example of the
    specification, has the match replaced by [[BLOCKED]]. *)
Theorem sanitize_input_skips_strings_in_lists :
  sanitize_input SecurityConfig_init
      (JObj [("cmds", JArr [JStr "os.system('rm -rf /')"])])
    = Some (JObj [("cmds", JArr [JStr "os.system('rm -rf /')"])])
  /\ sanitize_input SecurityConfig_init (JObj [("cmd", JStr "os.system('rm -rf /')")])
     = Some (JObj [("cmd", JStr "[BLOCKED]('rm -rf /')")])
  /\ sanitize_input SecurityConfig_init
       (JObj [("a", JObj [("b", JArr [JObj [("c", JStr "EVAL  (x)")]; JInt 3])])])
     = Some (JObj [("a", JObj [("b", JArr [JObj [("c", JStr "[BLOCKED]x)")]; JInt 3])])]).
Proof. repeat split; reflexivity. Qed.

(** C1. For the call of [run] with [{"cmd": "os.system('rm -rf /')"}], which
    passes the allow/block and rate-limit checks, the one upstream call carries
    the inbound body unchanged: the arguments the upstream server reads from it
    are the original ones, not what [sanitize_input] made of them. *)
Theorem tool_call_forwards_unsanitized_arguments
    (upstream : UpstreamCall -> option Response) (detector : string -> option bool)
    (now fresh : Q) :
  let calls := snd (handle_tool_call upstream detector now fresh None call_run proxy0) in
  let original := JObj [("cmd", JStr "os.system('rm -rf /')")] in
  is_tool_allowed (KStr "run") (security_config proxy0) = true
  /\ fst (check_rate_limit now fresh (KStr "run") (security_config proxy0)) = true
  /\ sanitize_input (security_config proxy0) original
     = Some (JObj [("cmd", JStr "[BLOCKED]('rm -rf /')")])
  /\ calls = [forward proxy0 None call_run]
  /\ map call_content calls = [req_body call_run]
  /\ map (fun c => tool_call_arguments (call_content c)) calls = [Some original].
Proof.
  intros calls original.
  assert (Hgate : fst (check_rate_limit now fresh (KStr "run") (security_config proxy0))
                  = true).
  { unfold check_rate_limit. by destruct (Qle_bool _ _). }
  assert (Hcalls : calls = [forward proxy0 None call_run]).
  { apply (handle_tool_call_past_gate _ _ _ _ _ _ _ (KStr "run")); try done.
    by eexists. }
  rewrite Hcalls. repeat split; done.
Qed.

(** ** Response filter *)

(** C3. With the detector reporting an injection, an upstream answer framed
    [event: message CRLF data: ...] is replaced by the safe payload under the
    original id, but the same answer framed with a bare LF makes the handler
    raise status 500 instead of returning the payload for an unrecognised
    format. *)
Theorem injection_in_lf_frame_raises (now fresh : Q) :
  let det := fun _ : string => Some true in
  fst (fst (handle_tool_call (fun _ => Some (reply frame_crlf)) det now fresh None
              call_run proxy0))
    = Returned
        {| content :=
             encode_frame (blocked_payload (JInt 7)
                             "Tool response blocked: prompt injection detected.");
           status_code := 200;
           headers := [("content-type", "text/event-stream")] |}
  /\ fst (fst (handle_tool_call (fun _ => Some (reply frame_lf)) det now fresh None
                 call_run proxy0))
     = HTTPException 500.
Proof.
  intros det.
  assert (Hgate : fst (check_rate_limit now fresh (KStr "run") (security_config proxy0))
                  = true).
  { unfold check_rate_limit. by destruct (Qle_bool _ _). }
  split.
  - destruct (handle_tool_call_named (fun _ => Some (reply frame_crlf)) det now fresh None
                call_run proxy0 (KStr "run") eq_refl) as (args & Hargs & ->).
    injection Hargs as <-. cbv zeta. rewrite Hgate.
    change (negb (session proxy0)) with false.
    change (negb (is_tool_allowed (KStr "run") (security_config proxy0))) with false.
    cbn [negb fst snd].
    destruct (check_rate_limit _ _ _ _) as [ok cfg1]. cbn [fst snd].
    destruct (input_sanitization_enabled cfg1); reflexivity.
  - destruct (handle_tool_call_named (fun _ => Some (reply frame_lf)) det now fresh None
                call_run proxy0 (KStr "run") eq_refl) as (args & Hargs & ->).
    injection Hargs as <-. cbv zeta. rewrite Hgate.
    change (negb (session proxy0)) with false.
    change (negb (is_tool_allowed (KStr "run") (security_config proxy0))) with false.
    cbn [negb fst snd].
    destruct (check_rate_limit _ _ _ _) as [ok cfg1]. cbn [fst snd].
    destruct (input_sanitization_enabled cfg1); reflexivity.
Qed.

(** ** Allow-list mode *)

Section ToggleFacts.

Implicit Types (t u : pykey) (cfg : SecurityConfig) (ops : list (pykey * bool)).

(** Only an enable puts a tool on the allow-list. *)
Lemma run_toggles_never_enabled ops : forall cfg u,
  u ∉ allowed_tools cfg -> (u, true) ∉ ops -> u ∉ allowed_tools (run_toggles ops cfg).
Proof.
  induction ops as [|[t b] ops IH]; intros cfg u Hu Hops; [done|].
  cbn [run_toggles fold_left fst snd]. apply IH.
  - rewrite toggle_tool_allowed. destruct b; [|tauto].
    intros [->|H]; [|done]. apply Hops. by left.
  - intros H. apply Hops. by right.
Qed.

End ToggleFacts.

(** C10, as stated, fails: enabling [A] and then disabling it again leaves the
    allow-list empty, and [B], never enabled and never blocked, is accepted. *)
Lemma allow_list_mode_is_not_permanent : ~ allow_list_mode_is_permanent.
Proof.
  intros H.
  specialize (H SecurityConfig_init (KStr "A") [(KStr "A", false)] (KStr "B")).
  assert (is_tool_allowed (KStr "B")
            (run_toggles [(KStr "A", false)]
               (toggle_tool (KStr "A") true SecurityConfig_init)) = true) as E.
  { apply is_tool_allowed_true. cbn [run_toggles fold_left fst snd]. split.
    - rewrite !toggle_tool_blocked. intros [[=]|[_ Hin]].
      by apply init_blocks_nothing in Hin.
    - left. apply elem_of_equiv_empty_L. intros x.
      rewrite !toggle_tool_allowed. intros [Hne [->|Hin]]; [done|].
      by apply init_allows_nothing_explicitly in Hin. }
  rewrite H in E; [discriminate|done|apply init_allows_nothing_explicitly|].
  intros [[=]|[]%elem_of_nil]%elem_of_cons.
Qed.

(** C10, amended. Enabling a tool puts it on the allow-list, which is then
    non-empty, so that every tool not on the list is rejected although it is
    not blocked; and after any further toggles, a tool that was never enabled
    is rejected for as long as the allow-list is non-empty. *)
Theorem first_enable_switches_to_allow_list (cfg : SecurityConfig) (t : pykey) :
  let cfg' := toggle_tool t true cfg in
  t ∈ allowed_tools cfg'
  /\ allowed_tools cfg' <> ∅
  /\ (forall u, u <> t -> (u ∉ allowed_tools cfg) -> is_tool_allowed u cfg' = false)
  /\ (forall ops u,
        u <> t -> (u ∉ allowed_tools cfg) -> ((u, true) ∉ ops) ->
        allowed_tools (run_toggles ops cfg') <> ∅ ->
        is_tool_allowed u (run_toggles ops cfg') = false).
Proof.
  intros cfg'.
  assert (Ht : t ∈ allowed_tools cfg') by (apply toggle_tool_allowed; by left).
  assert (Hfresh : forall u, u <> t -> u ∉ allowed_tools cfg -> u ∉ allowed_tools cfg').
  { intros u Hne Hu. unfold cfg'. rewrite toggle_tool_allowed. tauto. }
  repeat split; [done|by eapply allowed_tools_inhabited| |].
  - intros u Hne Hu. apply is_tool_allowed_false. right.
    split; [by eapply allowed_tools_inhabited|auto].
  - intros ops u Hne Hu Hops Hmode. apply is_tool_allowed_false. right.
    split; [done|]. apply run_toggles_never_enabled; auto.
Qed.

Lemma first_enable_switches_to_allow_list_witness :
  let ops := [(KStr "C", true); (KStr "A", false)] in
  let cfg' := toggle_tool (KStr "A") true SecurityConfig_init in
  is_tool_allowed (KStr "B") cfg' = false
  /\ is_tool_allowed (KStr "B") (run_toggles ops cfg') = false
  /\ (KStr "B" ∉ blocked_tools (run_toggles ops cfg')).
Proof.
  intros ops cfg'.
  destruct (first_enable_switches_to_allow_list SecurityConfig_init (KStr "A"))
    as (_ & _ & Hnow & Hlater).
  split; [|split].
  - apply Hnow; [done|]. apply init_allows_nothing_explicitly.
  - apply (Hlater ops).
    + done.
    + apply init_allows_nothing_explicitly.
    + intros [[=]|[[=]|[]%elem_of_nil]%elem_of_cons]%elem_of_cons.
    + apply (allowed_tools_inhabited (KStr "C")).
      unfold ops, cfg'. cbn [run_toggles fold_left fst snd].
      rewrite !toggle_tool_allowed. split; [done|]. by left.
  - unfold ops, cfg'. cbn [run_toggles fold_left fst snd].
    rewrite !toggle_tool_blocked.
    intros [[=]|[_ [_ Hin]]]. by apply init_blocks_nothing in Hin.
Defined.

(** ** Dispatcher *)

Section DispatchFacts.



End DispatchFacts.




(** ** The [tools/list] filter *)

Section ToolsListFacts.

Implicit Types (blocked : gset pykey) (tools kept : list json)
  (m : list (string * json)) (k : string) (v : json).










End ToolsListFacts.



(** ** Round trip of a sample frame *)


(** * Further properties of the proxy *)

(** ** Toggles and the rate-limit endpoint *)

Section PolicyExtras.

Implicit Types (t u : pykey) (cfg : SecurityConfig).

Lemma toggle_tool_rate_limits t (b : bool) cfg :
  rate_limits (toggle_tool t b cfg) = rate_limits cfg.
Proof. by destruct b. Qed.

Lemma disjoint_toggle t (b : bool) cfg :
  blocked_tools cfg ## allowed_tools cfg ->
  blocked_tools (toggle_tool t b cfg) ## allowed_tools (toggle_tool t b cfg).
Proof.
  intros Hd u Hb Ha.
  apply toggle_tool_blocked in Hb. apply toggle_tool_allowed in Ha.
  destruct b.
  - destruct Hb as [Hne Hb]. destruct Ha as [->|Ha]; [done|]. by apply (Hd u).
  - destruct Ha as [Hne Ha]. destruct Hb as [->|Hb]; [done|]. by apply (Hd u).
Qed.

Lemma update_rate_limit_sets fresh t z cfg :
  blocked_tools (update_rate_limit fresh t z cfg) = blocked_tools cfg
  /\ allowed_tools (update_rate_limit fresh t z cfg) = allowed_tools cfg.
Proof. unfold update_rate_limit. by destruct (truthy t && _). Qed.

Lemma check_rate_limit_sets now fresh t cfg :
  blocked_tools (snd (check_rate_limit now fresh t cfg)) = blocked_tools cfg
  /\ allowed_tools (snd (check_rate_limit now fresh t cfg)) = allowed_tools cfg.
Proof.
  unfold check_rate_limit. cbv zeta.
  by destruct (_ <=? _).
Qed.

End PolicyExtras.

(** X1. Whatever the earlier state of the policy, enabling a tool makes the
    gate accept it and disabling it makes the gate reject it; a second
    identical toggle changes nothing, and a toggle never touches the rate
    limits. *)
Theorem toggle_decides_the_toggled_tool (t : pykey) (cfg : SecurityConfig) :
  is_tool_allowed t (toggle_tool t true cfg) = true
  /\ is_tool_allowed t (toggle_tool t false cfg) = false
  /\ (forall b : bool, toggle_tool t b (toggle_tool t b cfg) = toggle_tool t b cfg)
  /\ (forall b : bool, rate_limits (toggle_tool t b cfg) = rate_limits cfg).
Proof.
  repeat split.
  - apply is_tool_allowed_true. split.
    + rewrite toggle_tool_blocked. by intros [? _].
    + right. rewrite toggle_tool_allowed. by left.
  - apply is_tool_allowed_false. left. rewrite toggle_tool_blocked. by left.
  - intros []; unfold toggle_tool, set_blocked_allowed; cbn; f_equal;
      apply set_eq; intros x;
      rewrite ?elem_of_difference, ?elem_of_union, ?elem_of_singleton; tauto.
  - intros b. apply toggle_tool_rate_limits.
Qed.

(** X2. In every policy state the endpoints and the gate can produce from
    start-up, no tool is in the blocked set and in the allow-list at once. *)
Theorem blocked_and_allowed_stay_disjoint (cfg : SecurityConfig) :
  reachable cfg -> blocked_tools cfg ## allowed_tools cfg.
Proof.
  induction 1 as [|cfg k b _ IH|cfg fresh k z _ IH|cfg now fresh k _ IH
                  |cfg fresh k _ IH|cfg fresh k _ IH].
  - intros u Hu. by apply init_blocks_nothing in Hu.
  - by apply disjoint_toggle.
  - by destruct (update_rate_limit_sets fresh k z cfg) as [-> ->].
  - by destruct (check_rate_limit_sets now fresh k cfg) as [-> ->].
  - done.
  - done.
Qed.

Lemma blocked_and_allowed_stay_disjoint_witness :
  blocked_tools (toggle_tool (KStr "A") false (toggle_tool (KStr "A") true SecurityConfig_init))
  ## allowed_tools (toggle_tool (KStr "A") false (toggle_tool (KStr "A") true SecurityConfig_init)).
Proof.
  apply blocked_and_allowed_stay_disjoint.
  apply reach_toggle, reach_toggle, reach_init.
Defined.

(** X3. Disabling the only tool of the allow-list empties the list, and the
    gate is back to accepting every tool that is not blocked. *)
Theorem disabling_last_allowed_tool_reopens_gate (t u : pykey) (cfg : SecurityConfig) :
  (forall v, v ∈ allowed_tools cfg -> v = t) ->
  is_tool_allowed u (toggle_tool t false cfg)
  = bool_decide (u <> t /\ (u ∉ blocked_tools cfg)).
Proof.
  intros Honly.
  assert (allowed_tools (toggle_tool t false cfg) = ∅) as Hempty.
  { apply set_eq. intros v. rewrite toggle_tool_allowed. split; [|by intros ?%elem_of_empty].
    intros [Hne Hv]. by apply Honly in Hv. }
  case_bool_decide as Hu.
  - apply is_tool_allowed_true. split; [|by left].
    rewrite toggle_tool_blocked. intros [?|?]; tauto.
  - apply is_tool_allowed_false. left. rewrite toggle_tool_blocked.
    destruct (decide (u = t)); [by left|right].
    destruct (decide (u ∈ blocked_tools cfg)); [done|]. exfalso. by apply Hu.
Qed.

Lemma disabling_last_allowed_tool_reopens_gate_witness :
  is_tool_allowed (KStr "B") (toggle_tool (KStr "A") true SecurityConfig_init) = false
  /\ is_tool_allowed (KStr "B")
       (toggle_tool (KStr "A") false (toggle_tool (KStr "A") true SecurityConfig_init))
     = bool_decide (KStr "B" <> KStr "A"
                    /\ (KStr "B" ∉ blocked_tools (toggle_tool (KStr "A") true SecurityConfig_init))).
Proof.
  split; [by vm_compute|].
  apply (disabling_last_allowed_tool_reopens_gate (KStr "A") (KStr "B")).
  intros v Hv. apply toggle_tool_allowed in Hv as [->|Hv]; [done|].
  by apply init_allows_nothing_explicitly in Hv.
Defined.

(** X4. The rate-limit endpoint: a request without a usable tool name or with
    a negative limit changes nothing; a limit of zero is stored as 60; any
    other limit is stored as given, keeping the count and the start of the
    running window; other tools and the allow / block sets are untouched. *)
Theorem update_rate_limit_edge_cases (fresh : Q) (k : pykey) (z : Z) (cfg : SecurityConfig) :
  let cfg' := update_rate_limit fresh k z cfg in
  (truthy k = false \/ z < 0 -> cfg' = cfg)
  /\ (truthy k = true -> 0 <= z ->
        rate_limits cfg' !! k
        = Some {| calls_per_minute := (if z =? 0 then 60 else z);
                  last_reset := last_reset (rate_limit_entry fresh k cfg);
                  call_count := call_count (rate_limit_entry fresh k cfg) |})
  /\ (forall k', k' <> k -> rate_limits cfg' !! k' = rate_limits cfg !! k')
  /\ blocked_tools cfg' = blocked_tools cfg
  /\ allowed_tools cfg' = allowed_tools cfg.
Proof.
  intros cfg'. subst cfg'. unfold update_rate_limit. cbv zeta.
  repeat split.
  - intros [->|Hz]; [done|].
    destruct (z =? 0) eqn:E; [lia|].
    replace (0 <? z) with false by lia. by rewrite andb_false_r.
  - intros -> Hz.
    destruct (z =? 0) eqn:E; cbn [andb].
    + cbn. by rewrite lookup_insert_eq.
    + replace (0 <? z) with true by lia. cbn. by rewrite lookup_insert_eq.
  - intros k' Hne. destruct (truthy k && _); [|done].
    cbn. by rewrite lookup_insert_ne.
  - by destruct (truthy k && _).
  - by destruct (truthy k && _).
Qed.

Lemma update_rate_limit_edge_cases_witness :
  update_rate_limit 0 (KStr "run") (-5) SecurityConfig_init = SecurityConfig_init
  /\ update_rate_limit 0 (KStr "") 5 SecurityConfig_init = SecurityConfig_init
  /\ rate_limits (update_rate_limit 7 (KStr "run") 0 SecurityConfig_init) !! KStr "run"
     = Some {| calls_per_minute := 60; last_reset := 7; call_count := 0 |}.
Proof.
  split; [|split].
  - apply (update_rate_limit_edge_cases 0 (KStr "run") (-5) SecurityConfig_init). right. lia.
  - apply (update_rate_limit_edge_cases 0 (KStr "") 5 SecurityConfig_init). by left.
  - apply (update_rate_limit_edge_cases 7 (KStr "run") 0 SecurityConfig_init); [done|lia].
Defined.

(** ** The budget of a rate window *)

Section RateLimitExtras.

Implicit Types (k : pykey) (cfg : SecurityConfig) (e : RateLimit) (now fresh : Q).

Lemma counted_zero e : counted 0 e = e.
Proof. destruct e. unfold counted. cbn. f_equal. lia. Qed.

Lemma run_checks_present (times : list (Q * Q)) : forall k cfg e,
  rate_limits cfg !! k = Some e ->
  Forall (fun t => (fst t - last_reset e < 60)%Q) times ->
  fst (run_checks times k cfg)
  = (replicate (Nat.min (budget e) (length times)) true
     ++ replicate (length times - budget e) false)%list
  /\ rate_limits (snd (run_checks times k cfg)) !! k
     = Some (counted (Nat.min (budget e) (length times)) e).
Proof.
  induction times as [|[now fresh] times IH]; intros k cfg e He Hwin.
  - cbn. rewrite Nat.min_0_r. cbn. by rewrite counted_zero.
  - inversion_clear Hwin as [|? ? Hw Hrest]. cbn [fst] in Hw.
    cbn [run_checks length].
    pose proof (rate_limit_entry_present fresh k cfg e He) as Hentry.
    destruct (Z.leb_spec (calls_per_minute e) (call_count e)) as [Hfull|Hroom].
    + rewrite check_within_window_fail by (rewrite Hentry; done).
      rewrite Hentry.
      match goal with |- context [run_checks times k ?c] =>
        destruct (IH k c e) as [IH1 IH2]; [by cbn; rewrite lookup_insert_eq|done|];
        destruct (run_checks times k c) as [oks cfg2] end.
      cbn [fst snd] in *.
      assert (budget e = 0%nat) as Hb by (unfold budget; lia).
      rewrite Hb in *. cbn in *. rewrite IH1, IH2. by rewrite Nat.sub_0_r.
    + rewrite check_within_window_pass by (rewrite Hentry; done).
      rewrite Hentry.
      set (e1 := {| calls_per_minute := calls_per_minute e;
                    last_reset := last_reset e;
                    call_count := call_count e + 1 |}).
      match goal with |- context [run_checks times k ?c] =>
        destruct (IH k c e1) as [IH1 IH2]; [by cbn; rewrite lookup_insert_eq|done|];
        destruct (run_checks times k c) as [oks cfg2] end.
      cbn [fst snd] in *.
      assert (budget e = S (budget e1)) as Hb by (unfold budget, e1; cbn; lia).
      rewrite Hb. cbn [Nat.min Nat.sub replicate app]. rewrite IH1, IH2.
      split; [done|]. f_equal. unfold counted, e1. cbn. f_equal. lia.
Qed.

End RateLimitExtras.

(** X5. Inside one window the limiter lets through as many checks as the
    cap leaves room for and refuses every later one, however many are made;
    the refused checks neither count nor move the start of the window, so the
    first check made a full window after that start passes again. *)
Theorem window_budget_is_never_exceeded
    (times : list (Q * Q)) (k : pykey) (cfg : SecurityConfig) (e : RateLimit) :
  rate_limits cfg !! k = Some e ->
  Forall (fun t => (fst t - last_reset e < 60)%Q) times ->
  let passes := Nat.min (budget e) (length times) in
  let cfg' := snd (run_checks times k cfg) in
  fst (run_checks times k cfg)
  = (replicate passes true ++ replicate (length times - budget e) false)%list
  /\ rate_limits cfg' !! k = Some (counted passes e)
  /\ (forall now fresh,
        (60 <= now - last_reset e)%Q -> 0 < calls_per_minute e ->
        fst (check_rate_limit now fresh k cfg') = true).
Proof.
  intros He Hwin passes cfg'.
  destruct (run_checks_present times k cfg e He Hwin) as [H1 H2].
  split; [done|]. split; [done|].
  intros now fresh Hexp Hcap.
  rewrite check_after_expiry; [done| |];
    rewrite (rate_limit_entry_present fresh k cfg' _ H2); done.
Qed.

Lemma window_budget_is_never_exceeded_witness :
  let run := KStr "run" in
  let cfg2 := update_rate_limit 0 run 2 SecurityConfig_init in
  let rapid := [(1%Q, 1%Q); (2%Q, 2%Q); (3%Q, 3%Q); (4%Q, 4%Q); (59%Q, 59%Q)] in
  fst (run_checks rapid run cfg2) = [true; true; false; false; false]
  /\ fst (check_rate_limit 60 60 run (snd (run_checks rapid run cfg2))) = true.
Proof.
  intros run cfg2 rapid.
  destruct (window_budget_is_never_exceeded rapid run cfg2
              {| calls_per_minute := 2; last_reset := 0; call_count := 0 |})
    as (H1 & _ & H3).
  - reflexivity.
  - repeat constructor.
  - split; [exact H1|]. apply H3; [by vm_compute|reflexivity].
Defined.

(** X6. Rate windows are kept per tool: a check of one tool leaves the entry
    of every other tool, the allow-list and the blocked set as they were, so
    the verdicts of the gate for another tool do not depend on it. *)
Theorem rate_limits_are_per_tool
    (now fresh now' fresh' : Q) (k k' : pykey) (cfg : SecurityConfig) :
  k' <> k ->
  let cfg' := snd (check_rate_limit now fresh k cfg) in
  rate_limits cfg' !! k' = rate_limits cfg !! k'
  /\ fst (check_rate_limit now' fresh' k' cfg') = fst (check_rate_limit now' fresh' k' cfg)
  /\ (forall t, is_tool_allowed t cfg' = is_tool_allowed t cfg).
Proof.
  intros Hne cfg'.
  assert (rate_limits cfg' !! k' = rate_limits cfg !! k') as Hother
    by apply (check_rate_limit_other now fresh k k' cfg Hne).
  split; [done|]. split.
  - unfold check_rate_limit, rate_limit_entry. rewrite Hother.
    cbv zeta. by destruct (_ <=? _).
  - intros t. unfold is_tool_allowed. subst cfg'.
    by destruct (check_rate_limit_sets now fresh k cfg) as [-> ->].
Qed.

Lemma rate_limits_are_per_tool_witness :
  let cfg1 := update_rate_limit 0 (KStr "a") 1 SecurityConfig_init in
  let spent := snd (check_rate_limit 1 1 (KStr "a") cfg1) in
  fst (check_rate_limit 2 2 (KStr "a") spent) = false
  /\ fst (check_rate_limit 2 2 (KStr "b") spent) = fst (check_rate_limit 2 2 (KStr "b") cfg1).
Proof.
  split; [by vm_compute|].
  apply (rate_limits_are_per_tool 1 1 2 2 (KStr "a") (KStr "b")). done.
Defined.

(** ** What goes upstream and what comes back *)

Section RelayFacts.

Variable upstream : UpstreamCall -> option Response.
Variable detector : string -> option bool.

Implicit Types (k : pykey) (self : MCPProxyMiddleware) (request : Request)
  (now fresh : Q) (path : option string) (r response : Response).





End RelayFacts.

Section HeaderFacts.



End HeaderFacts.



(** ** Upstream URL and state changes *)

Section UrlFacts.

Lemma rstrip_char_spec (s : string) :
  (exists n, s = Py.rstrip_char "/" s ++ slashes n)
  /\ last_char (fun c => Ascii.eqb c "/") (Py.rstrip_char "/" s) = false.
Proof.
  induction s as [|c r [[n Hn] Hlast]]; [split; [by exists 0%nat|done]|].
  cbn [Py.rstrip_char].
  destruct (Py.rstrip_char "/" r) as [|c' r'] eqn:E.
  - rewrite append_nil_l in Hn. destruct (Ascii.eqb_spec c "/") as [->|Hne].
    + split; [|done]. exists (S n). rewrite append_nil_l. cbn. by rewrite <- Hn.
    + split.
      * exists n. rewrite append_cons, append_nil_l. by rewrite <- Hn.
      * cbn. by apply Ascii.eqb_neq.
  - split.
    + exists n. rewrite append_cons. by rewrite <- Hn.
    + exact Hlast.
Qed.

Lemma lstrip_char_spec (s : string) :
  (exists n, s = slashes n ++ Py.lstrip_char "/" s)
  /\ Py.startswith "/" (Py.lstrip_char "/" s) = false.
Proof.
  induction s as [|c r [[n Hn] Hhead]]; [split; [by exists 0%nat|done]|].
  cbn [Py.lstrip_char].
  destruct (Ascii.eqb_spec c "/") as [->|Hne].
  - split; [|done]. exists (S n). cbn [slashes]. rewrite append_cons. by rewrite <- Hn.
  - split; [exists 0%nat; cbn [slashes]; by rewrite append_nil_l|].
    cbn [Py.startswith]. destruct (Ascii.eqb_spec "/" c); [congruence|done].
Qed.

End UrlFacts.

(** X8. The upstream URL: the configured base loses its trailing slashes;
    without a path (or with an empty one) the base is used as is; otherwise
    the path loses its leading slashes and is appended after exactly one
    slash. *)
Theorem target_url_joins_with_one_slash (self : MCPProxyMiddleware) (path : option string) :
  let base := Py.rstrip_char "/" (target_server_url self) in
  (exists n, target_server_url self = base ++ slashes n)
  /\ last_char (fun c => Ascii.eqb c "/") base = false
  /\ match path with
     | None | Some EmptyString => target_url self path = base
     | Some p =>
         exists n q,
           p = slashes n ++ q
           /\ Py.startswith "/" q = false
           /\ target_url self path = base ++ "/" ++ q
     end.
Proof.
  intros base.
  destruct (rstrip_char_spec (target_server_url self)) as [Hn Hlast].
  split; [done|]. split; [done|].
  destruct path as [[|c p]|]; [done| |done].
  destruct (lstrip_char_spec (String c p)) as [[n Hp] Hhead].
  by exists n, (Py.lstrip_char "/" (String c p)).
Qed.

Section DispatchExtras.

Variable upstream : UpstreamCall -> option Response.
Variable detector : string -> option bool.

Implicit Types (k : pykey) (self : MCPProxyMiddleware) (request : Request)
  (now fresh : Q) (path : option string).






End DispatchExtras.


(** ** Framing accepted by the decoder *)

Section FramingFacts.

Lemma json_dumps_nonempty (data : json) : json_dumps data <> EmptyString.
Proof.
  pose proof (json_dumps_starts_value data EmptyString) as H.
  rewrite append_nil_r in H. by destruct (json_dumps data).
Qed.

Lemma strip_framed (cr : string) (data : json) :
  cr = EmptyString \/ cr = String CR EmptyString ->
  Py.strip (framed (cr ++ String LF EmptyString) (json_dumps data))
  = ("event: message" ++ cr) ++ String LF ("data: " ++ json_dumps data).
Proof.
  intros Hcr. unfold Py.strip, framed.
  change (Py.lstrip ("event: message" ++ ?x)) with ("event: message" ++ x).
  set (eol := cr ++ String LF EmptyString).
  replace ("event: message" ++ eol ++ "data: " ++ json_dumps data ++ eol ++ eol)
    with ((("event: message" ++ cr) ++ String LF ("data: " ++ json_dumps data)) ++ (eol ++ eol)).
  2:{ unfold eol. rewrite !append_assoc, !append_cons, ?append_nil_l. reflexivity. }
  rewrite rstrip_app_spaces by (unfold eol; by destruct Hcr as [-> | ->]).
  apply rstrip_last.
  replace (("event: message" ++ cr) ++ String LF ("data: " ++ json_dumps data))
    with ((("event: message" ++ cr) ++ String LF "data: ") ++ json_dumps data).
  2:{ rewrite !append_assoc, !append_cons, ?append_nil_l. reflexivity. }
  rewrite last_char_app_r; [apply json_dumps_last|apply json_dumps_nonempty].
Qed.

Lemma decode_framed (cr : string) (data : json) :
  cr = EmptyString \/ cr = String CR EmptyString ->
  decode_frame (framed (cr ++ String LF EmptyString) (json_dumps data))
  = json_loads (json_dumps data).
Proof.
  intros Hcr. unfold decode_frame. rewrite strip_framed by done.
  rewrite split_app by (by destruct Hcr as [-> | ->]).
  rewrite split_no_sep.
  2:{ apply (all_chars_impl printable); [apply printable_not_lf|].
      rewrite all_chars_app. by rewrite json_dumps_printable. }
  by destruct Hcr as [-> | ->].
Qed.

End FramingFacts.

(** X10. The decoder of the [tools/list] handler reads the JSON-RPC object
    back from a frame whose lines end with CRLF as well as from one whose
    lines end with LF, for every object [json.dumps] can print. *)
Theorem decode_frame_accepts_crlf_and_lf (data : json) :
  well_formed data ->
  decode_frame (framed CRLF (json_dumps data)) = Some data
  /\ decode_frame (framed (String LF EmptyString) (json_dumps data)) = Some data.
Proof.
  intros Hwf. split.
  - change CRLF with (String CR EmptyString ++ String LF EmptyString).
    rewrite decode_framed by (by right). by apply loads_dumps.
  - change (String LF EmptyString) with (EmptyString ++ String LF EmptyString).
    rewrite decode_framed by (by left). by apply loads_dumps.
Qed.

Lemma decode_frame_accepts_crlf_and_lf_witness :
  decode_frame frame_crlf
  = Some (JObj [("jsonrpc", JStr "2.0"); ("id", JInt 7);
                ("result",
                 JObj [("content", JArr [JObj [("type", JStr "text"); ("text", JStr "done")]])])])
  /\ decode_frame frame_lf = decode_frame frame_crlf.
Proof.
  set (d := JObj [("jsonrpc", JStr "2.0"); ("id", JInt 7);
                ("result",
                 JObj [("content", JArr [JObj [("type", JStr "text"); ("text", JStr "done")]])])]).
  assert (well_formed d) as Hwf.
  { apply json_loads_well_formed with (s := json_dumps d). reflexivity. }
  destruct (decode_frame_accepts_crlf_and_lf d Hwf) as [H1 H2].
  split; [exact H1|]. exact (eq_trans H2 (eq_sym H1)).
Defined.

(** ** Stages of a tool call *)



Section AfterTheGate.

Variable upstream : UpstreamCall -> option Response.
Variable detector : string -> option bool.

Implicit Types (k : pykey) (self : MCPProxyMiddleware) (request : Request)
  (now fresh : Q) (path : option string).


End AfterTheGate.



Section BlockedPayloadFacts.


End BlockedPayloadFacts.





(** ** The tool listing *)

Section ToolsListExtras.

Implicit Types (blocked : gset pykey) (tools kept items : list json)
  (m dm rm : list (string * json)) (k : string) (v : json).










End ToolsListExtras.







(** ** Pattern scrubbing *)

Section RegexFacts.

Implicit Types (p q : regex) (s t u repl : string) (c d ch : ascii).

Lemma match_here_spaces_cons q d r :
  match_here (Spaces :: q) (String d r) =
    if Py.isspace d then
      match match_here (Spaces :: q) r with
      | Some n => Some (S n)
      | None => match_here q (String d r)
      end
    else match_here q (String d r).
Proof. reflexivity. Qed.

Lemma match_here_spaces_nil q : match_here (Spaces :: q) EmptyString = match_here q EmptyString.
Proof. reflexivity. Qed.

Lemma match_here_lit_cons c q d r :
  match_here (Lit c :: q) (String d r) =
    if lit_matches c d then option_map S (match_here q r) else None.
Proof. reflexivity. Qed.

Lemma match_here_nil p n : match_here p EmptyString = Some n -> n = O.
Proof.
  induction p as [|[c|] p IH]; [by intros [= <-]|done|].
  rewrite match_here_spaces_nil. apply IH.
Qed.

(** A pattern that avoids [ch] fails on a text that begins with [ch]. *)
Lemma avoids_head ch q x :
  avoids ch q = true -> q <> [] -> match_here q (String ch x) = None.
Proof.
  induction q as [|[c|] q IH]; [done| |]; cbn [avoids]; intros Ha _.
  - apply andb_true_iff in Ha as [Hc _]. apply negb_true_iff in Hc.
    by rewrite match_here_lit_cons, Hc.
  - apply andb_true_iff in Ha as [Ha Hq]. apply andb_true_iff in Ha as [Hsp Hne].
    apply negb_true_iff in Hsp. rewrite match_here_spaces_cons, Hsp.
    apply IH; [done|]. by destruct q.
Qed.

Lemma avoids_tail ch a q : avoids ch (a :: q) = true -> avoids ch q = true.
Proof. destruct a; cbn [avoids]; intros H; by apply andb_true_iff in H as [_ ?]. Qed.

(** Where the scan of [re.sub] is at the start of a match or of an emitted
    character, its output begins with the replacement or with that
    character. *)
Lemma sub_from_cons p ch repl c r :
  sub_from p (String ch repl) O (String c r) =
    match match_here p (String c r) with
    | Some (S k) => String ch (repl ++ sub_from p (String ch repl) k r)
    | _ => String c (sub_from p (String ch repl) O r)
    end.
Proof. cbn [sub_from]. destruct (match_here p (String c r)) as [[|k]|]; by rewrite ?append_cons. Qed.

(** A pattern that fails at a position of the input fails at the same
    position of the output: the output agrees with the input up to the next
    replacement, which begins with a character the pattern cannot consume. *)
Lemma match_here_sub_from p ch repl q :
  avoids ch q = true ->
  forall s, match_here q s = None ->
            match_here q (sub_from p (String ch repl) O s) = None.
Proof.
  induction q as [|[c|] q IH]; intros Ha; [done| |].
  - intros [|d r] H; [done|]. rewrite sub_from_cons.
    destruct (match_here p (String d r)) as [[|k]|];
      try (rewrite match_here_lit_cons in *;
           destruct (lit_matches c d); [|done];
           destruct (match_here q r) eqn:E; [done|];
           rewrite (IH (avoids_tail _ _ _ Ha) r E); done).
    by apply avoids_head.
  - pose proof Ha as Ha'. cbn [avoids] in Ha'.
    apply andb_true_iff in Ha' as [Ha' Hq]. apply andb_true_iff in Ha' as [Hsp Hne].
    induction s as [|d r IHs]; intros H; [done|].
    rewrite sub_from_cons.
    destruct (match_here p (String d r)) as [[|k]|] eqn:Hp.
    + pose proof (IH Hq (String d r)) as IHq. rewrite sub_from_cons, Hp in IHq.
      rewrite match_here_spaces_cons in *.
      destruct (Py.isspace d); [|by apply IHq].
      destruct (match_here (Spaces :: q) r) eqn:E; [done|].
      rewrite (IHs eq_refl). by apply IHq.
    + by apply avoids_head.
    + pose proof (IH Hq (String d r)) as IHq. rewrite sub_from_cons, Hp in IHq.
      rewrite match_here_spaces_cons in *.
      destruct (Py.isspace d); [|by apply IHq].
      destruct (match_here (Spaces :: q) r) eqn:E; [done|].
      rewrite (IHs eq_refl). by apply IHq.
Qed.

(** What follows a character the pattern cannot consume does not influence
    the match. *)
Lemma match_here_blind ch q :
  avoids ch q = true ->
  forall u x y, match_here q (u ++ String ch x) = match_here q (u ++ String ch y).
Proof.
  induction q as [|[c|] q IH]; intros Ha; [done| |].
  - intros [|d u] x y.
    + rewrite !append_nil_l.
      rewrite !avoids_head; done.
    + rewrite !append_cons, !match_here_lit_cons.
      by rewrite (IH (avoids_tail _ _ _ Ha) u x y).
  - pose proof (avoids_tail _ _ _ Ha) as Hq.
    induction u as [|d u IHu]; intros x y.
    + rewrite !append_nil_l. rewrite !avoids_head; done.
    + pose proof (IH Hq (String d u) x y) as IHq.
      rewrite !append_cons in *. rewrite !match_here_spaces_cons.
      by rewrite (IHu x y), IHq.
Qed.

(** A replacement inside which [q] matches nowhere, and whose last character
    [q] cannot consume, adds no match of [q]. *)
Lemma re_search_inert q ch u o :
  avoids ch q = true -> q <> [] ->
  inert q (u ++ String ch EmptyString) = true ->
  re_search q (u ++ String ch o) = re_search q o.
Proof.
  intros Ha Hne. induction u as [|d u IH]; intros Hin.
  - rewrite append_nil_l. cbn [re_search]. by rewrite avoids_head.
  - rewrite append_cons in *. cbn [inert] in Hin. cbn [re_search].
    change (String d (u ++ String ch ?x)) with (String d u ++ String ch x) in *.
    rewrite (match_here_blind ch q Ha (String d u) o EmptyString).
    destruct (match_here q (String d u ++ String ch EmptyString)); [done|].
    by apply IH.
Qed.

Lemma re_search_false_here q s : re_search q s = false -> match_here q s = None.
Proof. destruct s; cbn [re_search]; by destruct (match_here q _). Qed.

Lemma re_search_false_tail q c r : re_search q (String c r) = false -> re_search q r = false.
Proof. cbn [re_search]. by destruct (match_here q _). Qed.

(** The scan of [re.sub] leaves no match of [q], when [q] fails wherever the
    scan emits a character of the input. *)
Lemma re_search_sub_from p q u :
  let repl := String "[" (u ++ "]") in
  avoids "[" q = true -> avoids "]" q = true -> q <> [] ->
  inert q repl = true ->
  forall s skip, quiet p q s -> re_search q (sub_from p repl skip s) = false.
Proof.
  intros repl Hopen Hclose Hne Hin.
  induction s as [|c r IH]; intros skip Hquiet.
  - destruct Hquiet as [Hhere _]. cbn [sub_from re_search].
    destruct (match_here p EmptyString) as [[|k]|] eqn:Hp; rewrite ?Hhere; try done.
    by apply match_here_nil in Hp.
  - destruct Hquiet as [Hhere Hrest].
    destruct skip as [|k]; [|by apply IH].
    unfold repl. rewrite sub_from_cons. fold repl.
    destruct (match_here p (String c r)) as [[|k]|] eqn:Hp.
    + pose proof (match_here_sub_from p "[" (u ++ "]") q Hopen (String c r) Hhere) as H.
      rewrite sub_from_cons, Hp in H. fold repl in H.
      cbn [re_search]. rewrite H. by apply IH.
    + change (String "[" ((u ++ "]") ++ ?x)) with ((String "[" (u ++ "]")) ++ x).
      replace (String "[" (u ++ "]") ++ sub_from p repl k r)
        with (String "[" u ++ String "]" (sub_from p repl k r)).
      2:{ rewrite !append_cons, append_assoc. reflexivity. }
      rewrite re_search_inert; [by apply IH|done|done|].
      by rewrite append_cons.
    + pose proof (match_here_sub_from p "[" (u ++ "]") q Hopen (String c r) Hhere) as H.
      rewrite sub_from_cons, Hp in H. fold repl in H.
      cbn [re_search]. rewrite H. by apply IH.
Qed.

End RegexFacts.

Section ScrubFacts.

Implicit Types (p q : regex) (patterns : list regex) (s : string) (v : json).

Lemma quiet_self c p s : quiet (Lit c :: p) (Lit c :: p) s.
Proof.
  induction s as [|d r IH]; [done|]. split; [|done].
  rewrite match_here_lit_cons. destruct (lit_matches c d); [|done].
  by destruct (match_here p r) as [k|].
Qed.

Lemma quiet_other p q s : re_search q s = false -> quiet p q s.
Proof.
  induction s as [|d r IH]; intros H.
  - split; [|done]. rewrite (re_search_false_here _ _ H).
    by destruct (match_here p _) as [[|]|].
  - split; [|apply IH; by eapply re_search_false_tail].
    rewrite (re_search_false_here _ _ H). by destruct (match_here p _) as [[|]|].
Qed.

Lemma replacement_safe_inv q :
  replacement_safe q = true ->
  (exists c q', q = Lit c :: q') /\ avoids "[" q = true /\ avoids "]" q = true
  /\ inert q "[BLOCKED]" = true.
Proof.
  unfold replacement_safe. destruct q as [|[c|] q']; [done| |done].
  intros [[H1 H2]%andb_true_iff H3]%andb_true_iff. eauto 10.
Qed.

(** After [re.sub] for a pattern, the pattern is found nowhere. *)
Lemma re_sub_clean_self p s :
  replacement_safe p = true -> re_search p (re_sub p "[BLOCKED]" s) = false.
Proof.
  intros ((c & p' & ->) & Hopen & Hclose & Hin)%replacement_safe_inv.
  apply (re_search_sub_from (Lit c :: p') (Lit c :: p') "BLOCKED"); try done.
  apply quiet_self.
Qed.

(** [re.sub] for one pattern introduces no match of another. *)
Lemma re_sub_clean_other p q s :
  replacement_safe q = true -> re_search q s = false ->
  re_search q (re_sub p "[BLOCKED]" s) = false.
Proof.
  intros ((c & q' & ->) & Hopen & Hclose & Hin)%replacement_safe_inv Hs.
  apply (re_search_sub_from p (Lit c :: q') "BLOCKED"); try done.
  by apply quiet_other.
Qed.

Lemma scrub_cons p patterns s :
  scrub (p :: patterns) s = scrub patterns (re_sub p "[BLOCKED]" s).
Proof. reflexivity. Qed.

Lemma scrub_keeps_clean patterns : forall s q,
  replacement_safe q = true -> re_search q s = false ->
  re_search q (scrub patterns s) = false.
Proof.
  induction patterns as [|p patterns IH]; intros s q Hq Hs; [done|].
  rewrite scrub_cons. apply IH; [done|]. by apply re_sub_clean_other.
Qed.

Lemma scrub_clean patterns :
  forallb replacement_safe patterns = true ->
  forall s, pattern_free patterns (scrub patterns s) = true.
Proof.
  unfold pattern_free.
  induction patterns as [|p patterns IH]; intros Hsafe s; [done|].
  cbn [forallb] in *. apply andb_true_iff in Hsafe as [Hp Hsafe].
  rewrite scrub_cons. rewrite (IH Hsafe), andb_true_r.
  apply negb_true_iff. apply scrub_keeps_clean; [done|]. by apply re_sub_clean_self.
Qed.

(** Without a match [re.sub] returns its input. *)
Lemma re_sub_id p repl s : re_search p s = false -> re_sub p repl s = s.
Proof.
  unfold re_sub. induction s as [|c r IH]; intros H; [done|].
  cbn [sub_from]. rewrite (re_search_false_here _ _ H).
  rewrite IH; [done|]. by eapply re_search_false_tail.
Qed.

Lemma scrub_id patterns s : pattern_free patterns s = true -> scrub patterns s = s.
Proof.
  unfold pattern_free. induction patterns as [|p patterns IH]; [done|].
  cbn [forallb]. intros [Hp Hrest]%andb_true_iff.
  rewrite scrub_cons, re_sub_id; [by apply IH|by apply negb_true_iff].
Qed.

Lemma forallb_map {A B} (f : A -> B) (g : B -> bool) (l : list A) :
  forallb g (map f l) = forallb (fun x => g (f x)) l.
Proof. induction l as [|x l IH]; [done|]. cbn. by rewrite IH. Qed.

Lemma forallb_true {A} (g : A -> bool) (l : list A) :
  Forall (fun x => g x = true) l -> forallb g l = true.
Proof. induction 1 as [|x l Hx _ IH]; [done|]. cbn. by rewrite Hx, IH. Qed.

Lemma sanitize_value_reached patterns v :
  (forall s, pattern_free patterns (scrub patterns s) = true) ->
  reached_strings (pattern_free patterns) (sanitize_value patterns v) = true.
Proof.
  intros Hscrub. induction v as [| | |s|l IH|m IH] using json_induction; try done.
  - apply Hscrub.
  - cbn [sanitize_value reached_strings]. rewrite forallb_map. apply forallb_true.
    eapply List.Forall_impl; [|exact IH]. by intros [| | | | |m] H.
  - cbn [sanitize_value reached_strings]. rewrite forallb_map. apply forallb_true.
    eapply List.Forall_impl; [|exact IH]. by intros [k v] H.
Qed.

Lemma map_id_on {A} (f : A -> A) (l : list A) :
  Forall (fun x => f x = x) l -> map f l = l.
Proof. induction 1 as [|x l Hx _ IH]; [done|]. cbn. by rewrite Hx, IH. Qed.

Lemma forallb_Forall {A} (g : A -> bool) (l : list A) :
  forallb g l = true -> Forall (fun x => g x = true) l.
Proof.
  induction l as [|x l IH]; [constructor|]. cbn.
  intros [Hx Hl]%andb_true_iff. constructor; auto.
Qed.

Lemma sanitize_value_id patterns v :
  reached_strings (pattern_free patterns) v = true -> sanitize_value patterns v = v.
Proof.
  induction v as [| | |s|l IH|m IH] using json_induction; try done.
  - cbn. intros H. by rewrite scrub_id.
  - cbn [sanitize_value reached_strings]. intros H%forallb_Forall. f_equal.
    apply map_id_on.
    induction IH as [|x l Hx _ IHl]; [constructor|].
    inversion_clear H as [|? ? Hhead Htail]. constructor; [|by apply IHl].
    destruct x as [| | | | |m]; try done.
    specialize (Hx Hhead). cbn [sanitize_value] in Hx. exact Hx.
  - cbn [sanitize_value reached_strings]. intros H%forallb_Forall. f_equal.
    apply map_id_on.
    induction IH as [|[k x] l Hx _ IHl]; [constructor|].
    inversion_clear H as [|? ? Hhead Htail]. constructor; [|by apply IHl].
    cbn [fst snd] in *. by rewrite Hx.
Qed.

Lemma erase_sanitize_value patterns v :
  erase_strings (sanitize_value patterns v) = erase_strings v.
Proof.
  induction v as [| | |s|l IH|m IH] using json_induction; try done.
  - cbn [sanitize_value erase_strings]. f_equal. rewrite map_map.
    induction IH as [|x l Hx _ IHl]; [done|]. cbn [map]. rewrite IHl. f_equal.
    by destruct x.
  - cbn [sanitize_value erase_strings]. f_equal. rewrite map_map.
    induction IH as [|[k x] l Hx _ IHl]; [done|]. cbn [map fst snd] in *.
    by rewrite IHl, Hx.
Qed.

Lemma sanitize_input_value cfg (args out : json) :
  sanitize_input cfg args = Some out ->
  (exists m, args = JObj m) /\ out = sanitize_value (dangerous_patterns cfg) args.
Proof. destruct args as [| | | | |m]; try done. intros [= <-]. eauto. Qed.

Lemma reachable_patterns cfg :
  reachable cfg -> dangerous_patterns cfg = dangerous_patterns SecurityConfig_init.
Proof.
  induction 1 as [|cfg k b _ IH|cfg fresh k z _ IH|cfg now fresh k _ IH
                  |cfg fresh k _ IH|cfg fresh k _ IH]; try done.
  - by destruct b.
  - unfold update_rate_limit. by destruct (truthy k && _).
  - unfold check_rate_limit. cbv zeta. by destruct (_ <=? _).
Qed.

Lemma default_patterns_safe :
  forallb replacement_safe (dangerous_patterns SecurityConfig_init) = true.
Proof. reflexivity. Qed.

End ScrubFacts.

(** X18. Sanitization rewrites the text of strings and nothing else: the
    result has the keys, in their order, the list lengths and the leaves that
    are not strings of the arguments. *)
Theorem sanitize_input_keeps_shape (cfg : SecurityConfig) (args out : json) :
  sanitize_input cfg args = Some out ->
  erase_strings out = erase_strings args.
Proof.
  intros [_ ->]%sanitize_input_value. apply erase_sanitize_value.
Qed.

Lemma sanitize_input_keeps_shape_witness :
  erase_strings (JObj [("a", JObj [("b", JArr [JObj [("c", JStr "[BLOCKED]x)")]; JInt 3])])])
  = erase_strings (JObj [("a", JObj [("b", JArr [JObj [("c", JStr "EVAL  (x)")]; JInt 3])])]).
Proof.
  apply (sanitize_input_keeps_shape SecurityConfig_init
           (JObj [("a", JObj [("b", JArr [JObj [("c", JStr "EVAL  (x)")]; JInt 3])])])).
  reflexivity.
Defined.

(** X19. Arguments in which no string that sanitization reaches holds a
    denylisted pattern come back unchanged. *)
Theorem clean_arguments_pass_unchanged (cfg : SecurityConfig) (m : list (string * json)) :
  reached_strings (pattern_free (dangerous_patterns cfg)) (JObj m) = true ->
  sanitize_input cfg (JObj m) = Some (JObj m).
Proof.
  intros H. apply (sanitize_value_id (dangerous_patterns cfg)) in H.
  cbn [sanitize_value] in H. cbn [sanitize_input]. by rewrite H.
Qed.

Lemma clean_arguments_pass_unchanged_witness :
  sanitize_input SecurityConfig_init
    (JObj [("path", JStr "/tmp/evaluation.txt"); ("opts", JObj [("mode", JStr "exec")])])
  = Some (JObj [("path", JStr "/tmp/evaluation.txt"); ("opts", JObj [("mode", JStr "exec")])]).
Proof. apply clean_arguments_pass_unchanged. reflexivity. Defined.

(** X20. In every reachable policy, no string that [sanitize_input] has
    rewritten holds a match of any denylisted pattern: the replacement text
    neither contains nor completes one. *)
Theorem sanitized_strings_hold_no_denylisted_pattern
    (cfg : SecurityConfig) (args out : json) :
  reachable cfg ->
  sanitize_input cfg args = Some out ->
  reached_strings (pattern_free (dangerous_patterns cfg)) out = true
  /\ (forall s, pattern_free (dangerous_patterns cfg) (scrub (dangerous_patterns cfg) s) = true).
Proof.
  intros Hreach [_ ->]%sanitize_input_value.
  rewrite (reachable_patterns cfg Hreach).
  pose proof (scrub_clean _ default_patterns_safe) as Hscrub.
  split; [by apply sanitize_value_reached|done].
Qed.

Lemma sanitized_strings_hold_no_denylisted_pattern_witness :
  exists out,
    sanitize_input SecurityConfig_init
      (JObj [("cmd", JStr "os.sysos.systemtem('x'); EVAL  (y); subsubprocessprocess")]) = Some out
    /\ reached_strings (pattern_free (dangerous_patterns SecurityConfig_init)) out = true.
Proof.
  pose proof (sanitized_strings_hold_no_denylisted_pattern SecurityConfig_init
                (JObj [("cmd", JStr "os.sysos.systemtem('x'); EVAL  (y); subsubprocessprocess")])
                _ reach_init eq_refl) as [H _].
  eexists. split; [reflexivity|exact H].
Defined.

(** X21. In every reachable policy sanitization is idempotent: sanitizing
    sanitized arguments changes nothing. *)
Theorem sanitize_input_is_idempotent (cfg : SecurityConfig) (args out : json) :
  reachable cfg ->
  sanitize_input cfg args = Some out ->
  sanitize_input cfg out = Some out.
Proof.
  intros Hreach Hout.
  pose proof Hout as [[m ->] ->]%sanitize_input_value.
  cbn [sanitize_value]. cbn [sanitize_input]. f_equal.
  change (sanitize_value (dangerous_patterns cfg)
            (sanitize_value (dangerous_patterns cfg) (JObj m))
          = sanitize_value (dangerous_patterns cfg) (JObj m)).
  apply sanitize_value_id. apply sanitize_value_reached.
  rewrite (reachable_patterns cfg Hreach). apply scrub_clean, default_patterns_safe.
Qed.

Lemma sanitize_input_is_idempotent_witness :
  sanitize_input SecurityConfig_init (JObj [("cmd", JStr "[BLOCKED]('rm -rf /')")])
  = Some (JObj [("cmd", JStr "[BLOCKED]('rm -rf /')")]).
Proof.
  apply (sanitize_input_is_idempotent SecurityConfig_init
           (JObj [("cmd", JStr "os.system('rm -rf /')")]));
    [apply reach_init|reflexivity].
Defined.

(** ** Injection detector *)

Section DetectorFacts.

Implicit Types (a b s t pattern text : string).

Lemma str_lower_app a b : str_lower (a ++ b) = str_lower a ++ str_lower b.
Proof. induction a as [|c a IH]; [done|]. rewrite append_cons. cbn. by rewrite IH. Qed.

Lemma startswith_app pattern t b :
  Py.startswith pattern t = true -> Py.startswith pattern (t ++ b) = true.
Proof.
  revert t. induction pattern as [|c pattern IH]; intros [|d t]; try done.
  rewrite append_cons. cbn. intros [-> H]%andb_true_iff. by rewrite IH.
Qed.

Lemma contains_app_r pattern t b : contains pattern t = true -> contains pattern (t ++ b) = true.
Proof.
  induction t as [|d t IH].
  - destruct pattern; [|done]. by destruct b.
  - rewrite append_cons. cbn [contains]. intros [H|H]%orb_true_iff.
    + change (String d (t ++ b)) with (String d t ++ b). by rewrite startswith_app.
    + rewrite IH by done. by rewrite orb_true_r.
Qed.

Lemma contains_app_l pattern a t : contains pattern t = true -> contains pattern (a ++ t) = true.
Proof.
  intros H. induction a as [|c a IH]; [done|].
  rewrite append_cons. cbn [contains]. by rewrite IH, orb_true_r.
Qed.

Lemma next_matching_some {A} (f : A -> bool) (l : list A) x :
  Py.next_matching f l = Some x ->
  exists before after, l = (before ++ x :: after)%list /\ f x = true
    /\ Forall (fun y => f y = false) before.
Proof.
  induction l as [|y l IH]; [done|]. cbn. destruct (f y) eqn:E.
  - intros [= ->]. by exists [], l.
  - intros (before & after & -> & Hx & Hb)%IH. exists (y :: before), after.
    split; [done|]. split; [done|]. by constructor.
Qed.

Lemma next_matching_none {A} (f : A -> bool) (l : list A) :
  Py.next_matching f l = None <-> Forall (fun y => f y = false) l.
Proof.
  induction l as [|y l IH]; [done|]. cbn. destruct (f y) eqn:E.
  - split; [done|]. intros H. inversion_clear H. congruence.
  - rewrite IH. split; [by constructor|]. intros H. by inversion_clear H.
Qed.

Lemma rule_based_flag text :
  is_injection (_rule_based_check text) = true
  <-> exists pattern, pattern ∈ injection_patterns /\ contains pattern (str_lower text) = true.
Proof.
  unfold _rule_based_check. cbv zeta.
  destruct (Py.next_matching _ injection_patterns) as [pattern|] eqn:E.
  - split; [|done]. intros _.
    apply next_matching_some in E as (before & after & Hl & Hp & _).
    exists pattern. split; [|done]. rewrite Hl. apply elem_of_app. right. by left.
  - split; [done|]. intros (pattern & Hin & Hp).
    apply next_matching_none in E.
    apply list_elem_of_In in Hin.
    pose proof (proj1 (List.Forall_forall _ _) E pattern Hin) as Hf. cbn in Hf. congruence.
Qed.

End DetectorFacts.

(** X22. The rule-based check flags a text exactly when its lower-case form
    contains one of the listed phrases; it reports the first such phrase of
    the list; and a text that contains a flagged text, whatever surrounds
    it, is flagged too. *)
Theorem rule_based_check_flags_listed_phrases (text : string) :
  (is_injection (_rule_based_check text) = true
   <-> exists pattern, pattern ∈ injection_patterns
         /\ contains pattern (str_lower text) = true)
  /\ (forall pattern confidence,
        _rule_based_check text = RuleBased true (Some pattern) confidence ->
        exists before after,
          injection_patterns = (before ++ pattern :: after)%list
          /\ contains pattern (str_lower text) = true
          /\ Forall (fun earlier => contains earlier (str_lower text) = false) before)
  /\ (forall before after,
        is_injection (_rule_based_check text) = true ->
        is_injection (_rule_based_check (before ++ text ++ after)) = true).
Proof.
  split; [apply rule_based_flag|]. split.
  - intros pattern confidence. unfold _rule_based_check. cbv zeta.
    destruct (Py.next_matching _ injection_patterns) as [found|] eqn:E; [|done].
    intros [= -> _]. by apply next_matching_some in E.
  - intros before after (pattern & Hin & Hp)%rule_based_flag.
    apply rule_based_flag. exists pattern. split; [done|].
    rewrite !str_lower_app. by apply contains_app_l, contains_app_r.
Qed.

Section CheckFacts.

Implicit Types (sanitizer : PromptSanitizer) (text : string).


End CheckFacts.

(** X23. [check] answers only through the model: it raises when no model is
    loaded and when the model raises (the rule-based result it means to fall
    back on is never computed), and a verdict it returns is the model's, an
    injection exactly when the label is [untrusted] and the score is above
    the threshold. *)
Theorem check_answers_only_through_the_model (sanitizer : PromptSanitizer) (text : string) :
  (check sanitizer text = None
   <-> classifier sanitizer = None
       \/ exists classify, classifier sanitizer = Some classify /\ classify text = None)
  /\ (forall v,
        check sanitizer text = Some v ->
        exists classify label score,
          classifier sanitizer = Some classify
          /\ classify text = Some (label, score)
          /\ v = ML (is_injection v) label score (String.length text)
          /\ (is_injection v = true
              <-> label = "untrusted" /\ (threshold sanitizer < score)%Q)).
Proof.
  unfold check. split.
  - destruct (classifier sanitizer) as [classify|]; [|by split; [left|]].
    destruct (classify text) as [[label score]|] eqn:E.
    + split; [done|]. intros [?|(c & [= <-] & ?)]; congruence.
    + split; [|done]. intros _. right. by exists classify.
  - intros v. destruct (classifier sanitizer) as [classify|]; [|done].
    destruct (classify text) as [[label score]|] eqn:E; [|done].
    intros [= <-]. exists classify, label, score. do 3 (split; [done|]).
    cbn [is_injection]. rewrite andb_true_iff, String.eqb_eq, negb_true_iff.
    split; intros [-> H]; (split; [done|]).
    + destruct (Qlt_le_dec (threshold sanitizer) score) as [|Hle]; [done|].
      apply Qle_bool_iff in Hle. congruence.
    + destruct (Qle_bool score (threshold sanitizer)) eqn:Hle; [|done].
      apply Qle_bool_iff in Hle. exfalso. by eapply Qlt_not_le.
Qed.



(** ** Status endpoints *)

Section StatusFacts.

Implicit Types (k : pykey) (cfg : SecurityConfig) (self : MCPProxyMiddleware)
  (tool : json) (fresh : pykey -> Q).

(** The inline formula of [get_tools_status] and the gate agree. *)
Lemma is_enabled_is_tool_allowed k cfg :
  bool_decide (k ∉ blocked_tools cfg)
  && (bool_decide (allowed_tools cfg = ∅) || bool_decide (k ∈ allowed_tools cfg))
  = is_tool_allowed k cfg.
Proof.
  unfold is_tool_allowed.
  repeat case_bool_decide; cbn; try done; tauto.
Qed.

Lemma tool_status_spec fresh tool self st self1 :
  tool_status fresh tool self = Some (st, self1) ->
  exists k,
    tool_key tool = Some k
    /\ st_enabled st = is_tool_allowed k (security_config self)
    /\ st_usage_count st = default 0 (tool_usage_counts self !! k)
    /\ st_rate_limit st = calls_per_minute (rate_limit_entry (fresh k) k (security_config self))
    /\ st_current_usage st = call_count (rate_limit_entry (fresh k) k (security_config self))
    /\ blocked_tools (security_config self1) = blocked_tools (security_config self)
    /\ allowed_tools (security_config self1) = allowed_tools (security_config self)
    /\ (forall k', default 0 (tool_usage_counts self1 !! k')
                   = default 0 (tool_usage_counts self !! k')).
Proof.
  unfold tool_status, tool_key.
  destruct (subscript tool "name") as [tool_name|]; [|done].
  destruct (key_of tool_name) as [k|]; [|done].
  destruct (get_default tool "description" _) as [description|]; [|done].
  cbv zeta. intros [= <- <-]. exists k. cbn.
  rewrite is_enabled_is_tool_allowed. do 7 (split; [done|]).
  intros k'. destruct (decide (k' = k)) as [->|Hne].
  - by rewrite lookup_insert_eq.
  - by rewrite lookup_insert_ne.
Qed.

Lemma is_tool_allowed_sets k cfg cfg' :
  blocked_tools cfg' = blocked_tools cfg -> allowed_tools cfg' = allowed_tools cfg ->
  is_tool_allowed k cfg' = is_tool_allowed k cfg.
Proof. unfold is_tool_allowed. by intros -> ->. Qed.

Lemma count_enabled_sets available cfg cfg' :
  blocked_tools cfg' = blocked_tools cfg -> allowed_tools cfg' = allowed_tools cfg ->
  count_enabled available cfg' = count_enabled available cfg.
Proof.
  intros Hb Ha. induction available as [|tool rest IH]; [done|].
  cbn [count_enabled]. rewrite IH.
  destruct (tool_key tool) as [k|]; [|done].
  by rewrite (is_tool_allowed_sets k cfg cfg').
Qed.

Lemma get_tools_status_spec fresh available : forall self statuses self',
  get_tools_status fresh available self = Some (statuses, self') ->
  blocked_tools (security_config self') = blocked_tools (security_config self)
  /\ allowed_tools (security_config self') = allowed_tools (security_config self)
  /\ (forall k, default 0 (tool_usage_counts self' !! k)
                = default 0 (tool_usage_counts self !! k))
  /\ Forall2 (fun tool st =>
                exists k, tool_key tool = Some k
                  /\ st_enabled st = is_tool_allowed k (security_config self)
                  /\ st_usage_count st = default 0 (tool_usage_counts self !! k))
             available statuses
  /\ count_enabled available (security_config self)
     = Some (Z.of_nat (length (List.filter st_enabled statuses))).
Proof.
  induction available as [|tool rest IH]; intros self statuses self'.
  - intros [= <- <-]. by repeat split.
  - cbn [get_tools_status].
    destruct (tool_status fresh tool self) as [[st self1]|] eqn:E1; [|done].
    destruct (get_tools_status fresh rest self1) as [[sts self2]|] eqn:E2; [|done].
    intros [= <- <-].
    apply tool_status_spec in E1 as (k & Hk & Hen & Hus & _ & _ & Hb & Ha & Hu).
    apply IH in E2 as (Hb2 & Ha2 & Hu2 & Hall & Hcount).
    split; [congruence|]. split; [congruence|].
    split; [intros k'; by rewrite Hu2, Hu|].
    split.
    + constructor; [by exists k|].
      eapply Forall2_impl; [exact Hall|].
      intros tool' st' (k' & ? & ? & ?). exists k'.
      split; [done|]. split; [|by rewrite <- Hu].
      by rewrite <- (is_tool_allowed_sets k' _ _ Hb Ha).
    + cbn [count_enabled List.filter]. rewrite Hk.
      rewrite <- (count_enabled_sets rest _ _ Hb Ha), Hcount, Hen.
      destruct (is_tool_allowed k (security_config self)); cbn [length]; f_equal; lia.
Qed.

Lemma count_enabled_bounds available cfg n :
  count_enabled available cfg = Some n -> 0 <= n <= Z.of_nat (length available).
Proof.
  revert n. induction available as [|tool rest IH]; intros n.
  - intros [= <-]. cbn. lia.
  - cbn [count_enabled]. destruct (tool_key tool) as [k|]; [|done].
    destruct (count_enabled rest cfg) as [m|]; [|done].
    intros [= <-]. specialize (IH m eq_refl).
    destruct (is_tool_allowed k cfg); cbn [length]; lia.
Qed.

Lemma filter_length_map {A} (f : A -> bool) (l : list A) :
  length (List.filter f l) = length (List.filter (fun b : bool => b) (map f l)).
Proof.
  induction l as [|x l IH]; [done|]. cbn. destruct (f x); cbn; by rewrite IH.
Qed.

End StatusFacts.

(** X25. What [/api/tools] shows is what the gate decides: the [enabled]
    flag of every listed tool is the verdict of [is_tool_allowed] for it, and
    [/api/stats] counts as enabled exactly the tools flagged enabled, between
    zero and the number of tools.  Listing the tools changes no verdict of
    the allow / block decision and no usage count. *)
Theorem tools_status_agrees_with_gate
    (fresh : pykey -> Q) (available : list json) (self self' : MCPProxyMiddleware)
    (statuses : list ToolStatus) :
  get_tools_status fresh available self = Some (statuses, self') ->
  Forall2 (fun tool st =>
             exists k, tool_key tool = Some k
               /\ st_enabled st = is_tool_allowed k (security_config self)
               /\ st_usage_count st = default 0 (tool_usage_counts self !! k))
          available statuses
  /\ (exists stats,
        get_stats available self = Some stats
        /\ total_tools stats = Z.of_nat (length statuses)
        /\ enabled_tools stats = Z.of_nat (length (List.filter st_enabled statuses))
        /\ 0 <= disabled_tools stats <= total_tools stats)
  /\ (forall k, is_tool_allowed k (security_config self')
                = is_tool_allowed k (security_config self))
  /\ (forall k, default 0 (tool_usage_counts self' !! k)
                = default 0 (tool_usage_counts self !! k)).
Proof.
  intros (Hb & Ha & Hu & Hall & Hcount)%get_tools_status_spec.
  split; [done|]. split.
  - unfold get_stats. rewrite Hcount. eexists. split; [reflexivity|]. cbn.
    pose proof (Forall2_length _ _ _ Hall) as Hlen.
    pose proof (count_enabled_bounds _ _ _ Hcount) as Hbounds.
    rewrite Hlen in *. repeat split; lia.
  - split; [|done]. intros k. by apply is_tool_allowed_sets.
Qed.

Lemma tools_status_agrees_with_gate_witness :
  let self := with_config (toggle_tool (KStr "B") false) proxy0 in
  exists statuses self',
    get_tools_status (fun _ => 0%Q) tools_abc_names self = Some (statuses, self')
    /\ map st_enabled statuses = [true; false; true]
    /\ exists stats, get_stats tools_abc_names self = Some stats /\ enabled_tools stats = 2.
Proof.
  intros self.
  destruct (get_tools_status (fun _ => 0%Q) tools_abc_names self) as [[statuses self']|] eqn:E;
    [|by vm_compute in E].
  exists statuses, self'. split; [done|].
  destruct (tools_status_agrees_with_gate (fun _ => 0%Q) tools_abc_names self self' statuses E)
    as (Hall & (stats & Hstats & _ & Hen & _) & _).
  assert (map st_enabled statuses = [true; false; true]) as Hflags.
  { apply (f_equal (option_map (fun x => map st_enabled (fst x)))) in E.
    vm_compute in E. injection E as E. symmetry. exact E. }
  split; [done|]. exists stats. split; [done|].
  by rewrite Hen, filter_length_map, Hflags.
Defined.

Section UsageFacts.

Variable upstream : UpstreamCall -> option Response.
Variable detector : string -> option bool.

Implicit Types (k : pykey) (self : MCPProxyMiddleware) (request : Request)
  (now fresh : Q) (path : option string) (m : gmap pykey Z).




End UsageFacts.



(** X27. The [/api/test-usage] endpoint: for a falsy name or a name that no
    available tool carries nothing changes; for the name of an available
    tool the usage counter and the count of the running rate window both grow
    by one, without any check against the cap and without touching the cap,
    the start of the window or the allow / block sets. *)
Theorem test_usage_counts_without_checking
    (fresh : pykey -> Q) (available names : list json) (k : pykey)
    (self : MCPProxyMiddleware) :
  tool_names available = Some names ->
  (truthy k = false \/ Some k ∉ map key_of names ->
   test_usage_request fresh available k self = Some (None, self))
  /\ (truthy k = true -> Some k ∈ map key_of names ->
      exists self',
        let old := rate_limit_entry (fresh k) k (security_config self) in
        test_usage_request fresh available k self
        = Some (Some (default 0 (tool_usage_counts self !! k) + 1), self')
        /\ tool_usage_counts self' !! k = Some (default 0 (tool_usage_counts self !! k) + 1)
        /\ rate_limits (security_config self') !! k
           = Some {| calls_per_minute := calls_per_minute old;
                     last_reset := last_reset old;
                     call_count := call_count old + 1 |}
        /\ blocked_tools (security_config self') = blocked_tools (security_config self)
        /\ allowed_tools (security_config self') = allowed_tools (security_config self)).
Proof.
  intros Hnames. unfold test_usage_request. rewrite Hnames. split.
  - intros [->|Hnot]; [done|]. destruct (truthy k); [|done].
    by rewrite bool_decide_eq_false_2.
  - intros -> Hin. rewrite bool_decide_eq_true_2 by done.
    exists (set_security_config
              (test_usage (fresh k) k (security_config (count_usage k self)))
              (count_usage k self)).
    cbv zeta. cbn. rewrite !lookup_insert_eq. by repeat split.
Qed.

Lemma test_usage_counts_without_checking_witness :
  let capped := with_config (update_rate_limit 0 (KStr "A") 1) proxy0 in
  (exists self1,
      test_usage_request (fun _ => 0%Q) tools_abc_names (KStr "A") capped = Some (Some 1, self1)
      /\ rate_limits (security_config self1) !! KStr "A"
         = Some {| calls_per_minute := 1; last_reset := 0; call_count := 1 |})
  /\ test_usage_request (fun _ => 0%Q) tools_abc_names (KStr "Z") capped = Some (None, capped).
Proof.
  intros capped.
  destruct (test_usage_counts_without_checking (fun _ => 0%Q) tools_abc_names
              [JStr "A"; JStr "B"; JStr "C"] (KStr "A") capped eq_refl) as [_ H1].
  destruct (test_usage_counts_without_checking (fun _ => 0%Q) tools_abc_names
              [JStr "A"; JStr "B"; JStr "C"] (KStr "Z") capped eq_refl) as [H3 _].
  split.
  - destruct H1 as (self1 & E1 & _ & E2 & _); [done|by apply (bool_decide_unpack _)|].
    exists self1. split; [exact E1|exact E2].
  - apply H3. right. by apply (bool_decide_unpack _).
Defined.
